(** * LinguistWrapper: a shallow embedding of [linguist_wrapper.py]

    The module under study is [src/infra/github-linguist/linguist_wrapper.py]:
    a wrapper that unpacks a ZIP archive into a temporary directory, picks the
    project root, bootstraps a git repository, runs github-linguist (locally or
    in a container) and turns its JSON breakdown into per-language percentages
    and line counts.

    The development has four layers:
    - [F64]: Python's [float] (IEEE 754 binary64) with the three operations the
      wrapper uses ([int * float], [float / int], [round(x, 2)]);
    - [Fs]: a file-system tree with the queries and updates the wrapper uses;
    - the wrapper itself, written in a state-and-exception monad over a [world]
      that holds the file system and a trace of the external effects;
    - the properties of the wrapper. *)

From Equations Require Import Equations.
From stdpp Require Import gmap strings list fin_maps pretty.
From Stdlib Require Import ZArith Lia Strings.Ascii Strings.Byte Floats.SpecFloat.

Set Default Proof Using "Type".
#[local] Open Scope Z_scope.

(** ** Python exceptions and results *)

(** The exception classes that the wrapper raises itself or that can escape
    from the library calls it makes. *)
Inductive exn :=
| FileNotFoundError (msg : string)
| IsADirectoryError
| NotADirectoryError
| PermissionError
| FileExistsError
| OSError
| RuntimeError (msg : string)
| OverflowError
| ZeroDivisionError
| AttributeError
| JSONDecodeError
| BadZipFile
| CalledProcessError (returncode : Z).

Inductive result (A : Type) :=
| Ok (a : A)
| Raise (e : exn).
Arguments Ok {A} a.
Arguments Raise {A} e.

(** Sequencing stops at the first exception ([x ← e1; e2] below). *)
#[global] Instance result_bind : MBind result := λ A B k r,
  match r with
  | Ok a => k a
  | Raise e => Raise e
  end.

(** ** Binary64 floating point *)

Module F64.

(** A finite double is an integer multiple of [2^-1074] (the least subnormal),
    so a finite value is kept as a sign and a magnitude counted in that unit:
    [Fin neg mag] stands for [(-1)^neg * mag / 2^1074]. *)
Inductive float :=
| NaN
| Inf (neg : bool)
| Fin (neg : bool) (mag : Z).

Definition SCALE : Z := 2 ^ 1074.
(** [2^1024] in units of [2^-1074]: the first magnitude that is no longer finite. *)
Definition LIMIT : Z := 2 ^ 2098.

(** Nearest integer to [a / b], ties to even ([0 <= a], [0 < b]). *)
Definition rne_div (a b : Z) : Z :=
  let q := a / b in
  match 2 * (a mod b) ?= b with
  | Lt => q
  | Gt => q + 1
  | Eq => if Z.even q then q else q + 1
  end.

(** The spacing of the doubles around [a / b], as a power of two of the unit:
    a 53-bit significand leaves [bits - 53] low bits out. *)
Definition shift_of (a b : Z) : Z := Z.max 0 (Z.log2 (a / b) + 1 - 53).

(** Round-to-nearest-even of the exact quotient [a / b] (in units of
    [2^-1074]) to a binary64 magnitude, before the overflow test. *)
Definition round_mag (a b : Z) : Z :=
  let s := shift_of a b in
  rne_div a (b * 2 ^ s) * 2 ^ s.

Definition fround (neg : bool) (a b : Z) : float :=
  let m := round_mag a b in
  if m <? LIMIT then Fin neg m else Inf neg.

(** [float(n)] for a Python int: correctly rounded, [OverflowError] when the
    rounded value is not finite. *)
Definition float_of_int (n : Z) : result float :=
  match fround (n <? 0) (Z.abs n * SCALE) 1 with
  | Inf _ => Raise OverflowError
  | f => Ok f
  end.

Definition f100 : float := Fin false (100 * SCALE).

(** [x * y] on floats: the exact product rounded to nearest even; an overflow
    gives an infinity, never an exception. *)
Definition fmul (x y : float) : float :=
  match x, y with
  | NaN, _ | _, NaN => NaN
  | Inf s, Inf t => Inf (xorb s t)
  | Inf s, Fin t m | Fin s m, Inf t => if m =? 0 then NaN else Inf (xorb s t)
  | Fin s m, Fin t m' => fround (xorb s t) (m * m') SCALE
  end.

(** [x / y] on floats: Python raises [ZeroDivisionError] on a zero divisor and
    otherwise returns the correctly rounded quotient. *)
Definition fdiv (x y : float) : result float :=
  match x, y with
  | _, Fin _ 0 => Raise ZeroDivisionError
  | NaN, _ | _, NaN => Ok NaN
  | Inf _, Inf _ => Ok NaN
  | Inf s, Fin t _ => Ok (Inf (xorb s t))
  | Fin s _, Inf t => Ok (Fin (xorb s t) 0)
  | Fin s m, Fin t m' => Ok (fround (xorb s t) (m * SCALE) m')
  end.

(** The number of hundredths nearest to a finite magnitude (ties to even on
    the exact binary value): the digits [round(x, 2)] keeps. *)
Definition hundredths (mag : Z) : Z := rne_div (100 * mag) SCALE.

(** The double nearest to [k / 100]. *)
Definition of_hundredths (neg : bool) (k : Z) : float := fround neg (k * SCALE) 100.

(** [round(x, 2)]: infinities and NaN round to themselves; a finite value is
    rounded to two decimals exactly and the decimal result is converted back
    to the nearest double. *)
Definition round2 (x : float) : result float :=
  match x with
  | Fin s m =>
      match of_hundredths s (hundredths m) with
      | Inf _ => Raise OverflowError
      | f => Ok f
      end
  | _ => Ok x
  end.

(** Order on values, as Python's [<=] on floats (false on NaN). *)
Definition signed (neg : bool) (m : Z) : Z := if neg then - m else m.

(** A value read to two decimals, in hundredths: [12.34] reads [1234].  On a
    result of [round2] this is the decimal number that was converted. *)
Definition cents (x : float) : Z :=
  match x with
  | Fin s m => signed s (hundredths m)
  | _ => 0
  end.

Definition fle (x y : float) : bool :=
  match x, y with
  | NaN, _ | _, NaN => false
  | Inf true, _ | _, Inf false => true
  | Inf false, _ | _, Inf true => false
  | Fin s m, Fin t m' => signed s m <=? signed t m'
  end.

(** The canonical IEEE record of a value, for comparison with the Standard
    Library's specification of binary64. *)
Definition to_spec (x : float) : spec_float :=
  match x with
  | NaN => S754_nan
  | Inf s => S754_infinity s
  | Fin s m =>
      match binary_normalize 53 1024 m (-1074) false with
      | S754_finite _ p e => S754_finite s p e
      | S754_zero _ => S754_zero s
      | f => f
      end
  end.

(** A Python int as the Standard Library's binary64 record. *)
Definition spec_of_int (n : Z) : spec_float := binary_normalize 53 1024 n 0 false.

Definition spec_of_result (r : result float) : spec_float :=
  match r with Ok x => to_spec x | Raise _ => S754_nan end.

(** [round(a / b, 2)] for Python ints [a] and [b], in hundredths. *)
Definition round2_cents (a b : Z) : result Z :=
  x ← float_of_int a; y ← float_of_int b; q ← fdiv x y; r ← round2 q; Ok (cents r).

End F64.

(** ** Paths, bytes and the file-system tree *)

#[global] Instance byte_eq_decision : EqDecision byte := Byte.byte_eq_dec.

Abbreviation bytes := (list byte).

(** [pathlib.Path]: an absolute path, as the list of its components from the
    root of the file system.  Symbolic links and [..] components are outside
    the model, and so are names that the operating system refuses before it
    looks them up (a name with a NUL character, a name longer than the system
    allows): the tree looks every component up as the name of a child. *)
Abbreviation Path := (list string).

Module Fs.

#[warnings="-register-all"]
Inductive node :=
| File (readable : bool) (data : bytes)
| Dir (entries : gmap string node)
| Special.

(** What the operating system answers when the path is resolved: the node, or
    [ENOENT] for a missing component, or [ENOTDIR] when a component that must
    be a directory is not one. *)
Fixpoint resolve (cur : node) (p : Path) : result node :=
  match p with
  | [] => Ok cur
  | x :: p' =>
      match cur with
      | Dir es =>
          match es !! x with
          | Some c => resolve c p'
          | None => Raise (FileNotFoundError "")
          end
      | _ => Raise NotADirectoryError
      end
  end.

(** [Path.is_file()] and [Path.is_dir()]: false when the path does not
    resolve, whatever the reason. *)
Definition is_file (root : node) (p : Path) : bool :=
  match resolve root p with Ok (File _ _) => true | _ => false end.

Definition is_dir (root : node) (p : Path) : bool :=
  match resolve root p with Ok (Dir _) => true | _ => false end.

(** [Path.name]: the final component. *)
Definition name (p : Path) : string := List.last p "".

(** [Path.iterdir()]: the children of a directory, in the order the operating
    system lists them (here: the order of the map). *)
Definition iterdir (root : node) (d : Path) : result (list Path) :=
  n ← resolve root d;
  match n with
  | Dir es => Ok ((λ kv, d ++ [kv.1]) <$> map_to_list es)
  | _ => Raise NotADirectoryError
  end.

(** [open(p, "rb")]: the content of a readable regular file.  [Special]
    stands for a node that is neither a regular file nor a directory and that
    [open] refuses, as it refuses a socket; devices and FIFOs, which [open]
    accepts (a read then gives what the device gives, or waits), are not in
    the tree. *)
Definition open_rb (root : node) (p : Path) : result bytes :=
  n ← resolve root p;
  match n with
  | File true data => Ok data
  | File false _ => Raise PermissionError
  | Dir _ => Raise IsADirectoryError
  | Special => Raise OSError
  end.

(** [os.mkdir(p)]. *)
Fixpoint mkdir (cur : node) (p : Path) : result node :=
  match p, cur with
  | [], _ => Raise FileExistsError
  | x :: p', Dir es =>
      match p', es !! x with
      | [], None => Ok (Dir (<[x := Dir ∅]> es))
      | [], Some _ => Raise FileExistsError
      | _ :: _, Some c => c' ← mkdir c p'; Ok (Dir (<[x := c']> es))
      | _ :: _, None => Raise (FileNotFoundError "")
      end
  | _ :: _, _ => Raise NotADirectoryError
  end.

(** [shutil.rmtree(p, ignore_errors=True)]: the entry [p] and everything below
    it is unlinked from its parent; a path that does not resolve is left
    alone. *)
Fixpoint rmtree (cur : node) (p : Path) : node :=
  match p, cur with
  | x :: p', Dir es =>
      match p', es !! x with
      | [], _ => Dir (delete x es)
      | _ :: _, Some c => Dir (<[x := rmtree c p']> es)
      | _ :: _, None => cur
      end
  | _, _ => cur
  end.

End Fs.

(** [str(path)] *)
Definition path_str (p : Path) : string :=
  match p with
  | [] => "/"
  | _ => String.concat "" ((λ c, "/" +:+ c) <$> p)
  end.

(** The components of a path given as text: split at [/], with empty and [.]
    components dropped, as [pathlib] parses it. *)
Fixpoint split_slash (s cur : string) : list string :=
  match s with
  | EmptyString => [cur]
  | String c s' =>
      if bool_decide (c = "/"%char) then cur :: split_slash s' ""
      else split_slash s' (cur +:+ String c "")
  end.

Definition path_parts (s : string) : list string :=
  filter (λ c, c ≠ "" ∧ c ≠ ".") (split_slash s "").

Definition is_absolute (s : string) : bool :=
  match s with String "/" _ => true | _ => false end.

(** [dir / f]: joining with an absolute [f] gives [f]. *)
Definition path_join (dir : Path) (f : string) : Path :=
  if is_absolute f then path_parts f else dir ++ path_parts f.

(** ** The world the wrapper runs in *)

(** What the wrapper does to its environment, in order. *)
Inductive event :=
| EvMkdtemp (dir : Path)
| EvExtract (zip dest : Path)
| EvRun (cmd : list string) (cwd : option string)
| EvRmtree (dir : Path).

Record world := World { w_fs : Fs.node; w_trace : list event }.

(** [subprocess.CompletedProcess] with captured text output. *)
Record CompletedProcess :=
  { returncode : Z; stdout : string; stderr : string }.

(** One entry of linguist's breakdown: [{"size": int, "files": [str, ...]}],
    either key possibly absent.  The size is a byte count, a JSON integer;
    an entry of another shape (a size that is a JSON float such as [1e308] or
    [Infinity], a file list that is not a list of strings) is outside the
    model, and every statement about a report is a statement about reports of
    this shape. *)
Record lang_info := { info_size : option Z; info_files : option (list string) }.

(** A decoded JSON document: an object of breakdown entries, or any other
    value, of which only the truth value matters to the wrapper. *)
Inductive json :=
| JObject (items : gmap string lang_info)
| JOther (truthy : bool).

(** The library and operating-system calls whose code is not the wrapper's:
    every property below holds for all of their behaviours. *)
Record Env := {
  (** [tempfile.gettempdir()] and the names [tempfile] draws, in order *)
  tempdir : Path;
  candidate_names : list string;
  (** [zipfile.ZipFile(zip).extractall(dest)]: may fail, may leave files *)
  zip_extractall : Fs.node → Path → Path → result unit * Fs.node;
  (** [subprocess.run(cmd, cwd=cwd)]: the process may change the files *)
  subprocess_run :
    Fs.node → list string → option string → result CompletedProcess * Fs.node;
  (** [os.stat(p)]: [(st_uid, st_gid)] *)
  os_stat : Fs.node → Path → result (Z * Z);
  (** [json.loads] *)
  json_loads : string → result json;
}.

(** State and exceptions: a computation maps a world to an outcome and the
    world it leaves behind. *)
Definition M (A : Type) : Type := world → result A * world.

Definition ret {A} (a : A) : M A := λ w, (Ok a, w).
Definition raise {A} (e : exn) : M A := λ w, (Raise e, w).
#[global] Instance M_bind : MBind M := λ A B k m w,
  match m w with
  | (Ok a, w') => k a w'
  | (Raise e, w') => (Raise e, w')
  end.
(** A pure query of the file system that may raise. *)
Definition query {A} (f : Fs.node → result A) : M A := λ w, (f (w_fs w), w).
Definition emit (ev : event) : M unit :=
  λ w, (Ok tt, World (w_fs w) (w_trace w ++ [ev])).
Definition set_fs (fs : Fs.node) : M unit := λ w, (Ok tt, World fs (w_trace w)).


(** [subprocess.run(cmd, cwd=cwd, check=False)] *)
Definition run (E : Env) (cmd : list string) (cwd : option string) : M CompletedProcess :=
  emit (EvRun cmd cwd);;
  (λ w, let '(r, fs') := subprocess_run E (w_fs w) cmd cwd in
        (r, World fs' (w_trace w))) : M CompletedProcess.

(** [tempfile.mkdtemp()]: the first candidate name that is free. *)
Fixpoint mkdtemp_from (names : list string) (base : Path) (fs : Fs.node)
  : result (Path * Fs.node) :=
  match names with
  | [] => Raise FileExistsError
  | n :: rest =>
      let d := base ++ ["tmp" +:+ n] in
      match Fs.mkdir fs d with
      | Ok fs' => Ok (d, fs')
      | Raise FileExistsError => mkdtemp_from rest base fs
      | Raise e => Raise e
      end
  end.

Definition mkdtemp (E : Env) : M Path :=
  λ w, match mkdtemp_from (candidate_names E) (tempdir E) (w_fs w) with
       | Ok (d, fs') => (Ok d, World fs' (w_trace w ++ [EvMkdtemp d]))
       | Raise e => (Raise e, w)
       end.

(** [TemporaryDirectory.cleanup()] *)
Definition cleanup (d : Path) : M unit :=
  λ w, (Ok tt, World (Fs.rmtree (w_fs w) d) (w_trace w ++ [EvRmtree d])).

(** [with tempfile.TemporaryDirectory() as tmpdir: body]: the directory is
    created on entry; on exit, normal or by an exception, it is cleaned up and
    the body's outcome is the outcome of the statement. *)
Definition with_TemporaryDirectory {A} (E : Env) (body : Path → M A) : M A :=
  λ w, match mkdtemp E w with
       | (Raise e, w1) => (Raise e, w1)
       | (Ok tmpdir, w1) =>
           let '(r, w2) := body tmpdir w1 in
           (r, (cleanup tmpdir w2).2)
       end.

(** [with zipfile.ZipFile(zip_path) as zf: zf.extractall(dest)] *)
Definition extractall (E : Env) (zip_path dest : Path) : M unit :=
  emit (EvExtract zip_path dest);;
  (λ w, let '(r, fs') := zip_extractall E (w_fs w) zip_path dest in
        (r, World fs' (w_trace w))) : M unit.

(** ** The wrapper *)

Record LinguistWrapper := {
  use_docker : bool;
  linguist_cmd : string;
  docker_image : string;
}.

(** [LinguistWrapper()] with the defaults of [__init__]. *)
Definition default_wrapper (docker : bool) : LinguistWrapper :=
  {| use_docker := docker; linguist_cmd := "github-linguist"; docker_image := "linguist" |}.

Record lang_stat := { percent : F64.float; lines : Z }.

Definition inspect {A} (a : A) : {b : A | a = b} := exist _ a eq_refl.

(** [1 << 20] *)
Definition CHUNK : nat := Z.to_nat (Z.shiftl 1 20).

(** [chunk.count(b"\n")] *)
Definition count_newlines (chunk : bytes) : Z :=
  Z.of_nat (length (filter (λ c, c = x0a) chunk)).

(** [sum(chunk.count(b"\n") for chunk in iter(lambda: f.read(n), b""))] on a
    file object whose unread content is [data]: [f.read(n)] returns the next
    [n] bytes (fewer at the end of the file), and the iteration stops at the
    first empty chunk. *)
Equations? read_loop (n : nat) (data : bytes) : Z by wf (length data) lt :=
  read_loop n data with inspect (take n data) := {
    | exist _ [] _ := 0
    | exist _ (c :: cs) _ := count_newlines (c :: cs) + read_loop n (drop n data) }.
Proof.
  destruct n; [done|]. destruct data; [done|].
  rewrite length_drop. simpl. lia.
Qed.

Definition _count_lines (fs : Fs.node) (file_path : Path) : result Z :=
  match Fs.open_rb fs file_path with
  | Ok data => Ok (read_loop CHUNK data)
  | Raise IsADirectoryError | Raise (FileNotFoundError _) | Raise PermissionError => Ok 0
  | Raise e => Raise e
  end.

Definition _detect_project_root (fs : Fs.node) (extract_dir : Path) : result Path :=
  listing ← Fs.iterdir fs extract_dir;
  let entries := filter (λ p, Fs.name p ≠ "__MACOSX") listing in
  let subdirs := filter (λ p, Fs.is_dir fs p = true) entries in
  let files := filter (λ p, Fs.is_file fs p = true) entries in
  Ok (if bool_decide (length subdirs = 1%nat) && bool_decide (files = [])
      then default extract_dir (head subdirs)
      else extract_dir).

(** The local helper [run_git] of [_init_git_repo]: [check=True] turns a non-zero
    exit into [CalledProcessError]. *)
Definition run_git (E : Env) (repo_path : Path) (cmd : list string) : M unit :=
  r ← run E cmd (Some (path_str repo_path));
  if bool_decide (returncode r ≠ 0) then raise (CalledProcessError (returncode r))
  else ret tt.

Definition _init_git_repo (E : Env) (repo_path : Path) : M unit :=
  run_git E repo_path ["git"; "init"; "-q"];;
  run_git E repo_path ["git"; "add"; "-A"];;
  run_git E repo_path
    ["git"; "-c"; "user.name=linguist"; "-c"; "user.email=linguist@example.com";
     "commit"; "-m"; "Initial commit"; "-q"].

Definition _execute_linguist (E : Env) (self : LinguistWrapper)
    (args : list string) (repo_dir : Path) : M string :=
  '(cmd, cwd) ←
    (if use_docker self then
       '(uid, gid) ← query (λ fs, os_stat E fs repo_dir);
       ret (["docker"; "run"; "--rm";
             "--user"; pretty uid +:+ ":" +:+ pretty gid;
             "-v"; path_str repo_dir +:+ ":/repo:ro";
             "-w"; "/repo";
             docker_image self] ++ args, None)
     else ret (linguist_cmd self :: args, Some (path_str repo_dir)));
  result ← run E cmd cwd;
  if bool_decide (returncode result ≠ 0) then
    raise (RuntimeError ("github-linguist failed with code "
                         +:+ pretty (returncode result) +:+ ": " +:+ stderr result))
  else ret (stdout result).

Definition _run_linguist_breakdown (E : Env) (self : LinguistWrapper)
    (repo_dir : Path) : M json :=
  output ← _execute_linguist E self ["--breakdown"; "--json"; "."] repo_dir;
  query (λ _, json_loads E output).

(** [sum(item.get("size", 0) for item in breakdown_data.values())] *)
Definition sum_sizes (breakdown_data : gmap string lang_info) : Z :=
  map_fold (λ _ item acc, default 0 (info_size item) + acc) 0 breakdown_data.

(** [... or 1] *)
Definition total_bytes (breakdown_data : gmap string lang_info) : Z :=
  let s := sum_sizes breakdown_data in
  if bool_decide (s = 0) then 1 else s.

(** [round(size * 100.0 / total_bytes, 2)] with [size] and [total_bytes]
    Python ints. *)
Definition percent_of (size total : Z) : result F64.float :=
  x ← F64.float_of_int size;
  y ← F64.float_of_int total;
  q ← F64.fdiv (F64.fmul x F64.f100) y;
  F64.round2 q.

(** [sum(self._count_lines(repo_dir / f) for f in files)] *)
Fixpoint sum_lines (fs : Fs.node) (repo_dir : Path) (files : list string) : result Z :=
  match files with
  | [] => Ok 0
  | f :: rest =>
      n ← _count_lines fs (path_join repo_dir f);
      m ← sum_lines fs repo_dir rest;
      Ok (n + m)
  end.

(** The body of the loop over [breakdown_data.items()]. *)
Definition language_stat (fs : Fs.node) (repo_dir : Path) (total : Z)
    (info : lang_info) : result lang_stat :=
  let files := default [] (info_files info) in
  lines ← sum_lines fs repo_dir files;
  percent ← percent_of (default 0 (info_size info)) total;
  Ok {| percent := percent; lines := lines |}.

(** The loop itself: [stats[language] = ...] for each item in turn. *)
Fixpoint stats_loop (fs : Fs.node) (repo_dir : Path) (total : Z)
    (items : list (string * lang_info)) (stats : gmap string lang_stat)
  : result (gmap string lang_stat) :=
  match items with
  | [] => Ok stats
  | (language, info) :: rest =>
      st ← language_stat fs repo_dir total info;
      stats_loop fs repo_dir total rest (<[language := st]> stats)
  end.

Definition _collect_language_stats (E : Env) (self : LinguistWrapper)
    (repo_dir : Path) : M (gmap string lang_stat) :=
  breakdown_data ← _run_linguist_breakdown E self repo_dir;
  match breakdown_data with
  | JOther false => raise (RuntimeError "github-linguist returned empty result")
  | JOther true => raise AttributeError
  | JObject items =>
      if bool_decide (items = ∅) then
        raise (RuntimeError "github-linguist returned empty result")
      else
        let total_bytes := total_bytes items in
        query (λ fs, stats_loop fs repo_dir total_bytes (map_to_list items) ∅)
  end.

Definition analyze_zip (E : Env) (self : LinguistWrapper) (zip_path : Path)
  : M (gmap string lang_stat) :=
  is_file ← query (λ fs, Ok (Fs.is_file fs zip_path));
  if negb is_file then
    raise (FileNotFoundError ("File not found: " +:+ path_str zip_path))
  else
    with_TemporaryDirectory E (λ tmpdir_path,
      extractall E zip_path tmpdir_path;;
      project_root ← query (λ fs, _detect_project_root fs tmpdir_path);
      _init_git_repo E project_root;;
      _collect_language_stats E self project_root).

(** ** Vocabulary of the statements *)

(** The magnitudes binary64 can hold: a significand below [2^53] times a power
    of two of the unit. *)
Definition representable (c : Z) : Prop :=
  ∃ m t, c = m * 2 ^ t ∧ 0 ≤ m < 2 ^ 53 ∧ 0 ≤ t.

(** A percentage between [0.0] and [100.0], in Python's order on floats. *)
Definition in_range (x : F64.float) : Prop :=
  F64.fle (F64.Fin false 0) x = true ∧ F64.fle x F64.f100 = true.

(** The sum of the percentages of a result, each read to two decimals, in
    hundredths: [10000] stands for [100.00]. *)
Definition sum_cents (stats : gmap string lang_stat) : Z :=
  map_fold (λ _ st acc, F64.cents (percent st) + acc) 0 stats.

Definition exists_path (fs : Fs.node) (p : Path) : bool :=
  match Fs.resolve fs p with Ok _ => true | Raise _ => false end.

Definition is_Dir (n : Fs.node) : Prop :=
  match n with Fs.Dir _ => True | _ => False end.
Definition is_File (n : Fs.node) : Prop :=
  match n with Fs.File _ _ => True | _ => False end.
#[global] Instance is_Dir_dec n : Decision (is_Dir n).
Proof. destruct n; apply _. Defined.
#[global] Instance is_File_dec n : Decision (is_File n).
Proof. destruct n; apply _. Defined.

(** The names of the top-level subdirectories, and of the top-level regular
    files, of a directory with entries [es], the entry named [__MACOSX]
    apart. *)
Definition subdir_names (es : gmap string Fs.node) : gset string :=
  dom (filter (λ kv, kv.1 ≠ "__MACOSX" ∧ is_Dir kv.2) es).
Definition file_names (es : gmap string Fs.node) : gset string :=
  dom (filter (λ kv, kv.1 ≠ "__MACOSX" ∧ is_File kv.2) es).

(** The statistic the loop body computes for an entry when it does not
    raise. *)
Definition stat_of (fs : Fs.node) (repo_dir : Path) (total : Z) (info : lang_info)
  : lang_stat :=
  match language_stat fs repo_dir total info with
  | Ok st => st
  | Raise _ => {| percent := F64.NaN; lines := 0 |}
  end.

(** The command line of the container mode. *)
Definition docker_command (self : LinguistWrapper) (uid gid : Z) (args : list string)
    (repo_dir : Path) : list string :=
  ["docker"; "run"; "--rm"; "--user"; pretty uid +:+ ":" +:+ pretty gid;
   "-v"; path_str repo_dir +:+ ":/repo:ro"; "-w"; "/repo"; docker_image self] ++ args.

(** The message of the error raised for a classifier that exits non-zero. *)
Definition failure_message (cp : CompletedProcess) : string :=
  "github-linguist failed with code " +:+ pretty (returncode cp) +:+ ": " +:+ stderr cp.

Definition EMPTY_MESSAGE : string := "github-linguist returned empty result".

(** The block under [with tempfile.TemporaryDirectory() as tmpdir] in
    [analyze_zip]. *)
Definition with_block (E : Env) (self : LinguistWrapper) (zip_path tmpdir_path : Path)
  : M (gmap string lang_stat) :=
  extractall E zip_path tmpdir_path;;
  project_root ← query (λ fs, _detect_project_root fs tmpdir_path);
  _init_git_repo E project_root;;
  _collect_language_stats E self project_root.

(** The claim about percentages as the specification words it: for a report
    with at least one non-zero size, every percentage lies in [0, 100] and
    the percentages sum to [100.00] up to half a hundredth per language. *)
Definition percentages_claim (E : Env) (self : LinguistWrapper) (repo_dir : Path)
    (w : world) : Prop :=
  ∀ items w1 stats w',
    _run_linguist_breakdown E self repo_dir w = (Ok (JObject items), w1) →
    _collect_language_stats E self repo_dir w = (Ok stats, w') →
    (∃ language info, items !! language = Some info ∧ default 0 (info_size info) ≠ 0) →
    (∀ language st, stats !! language = Some st → in_range (percent st)) ∧
    2 * Z.abs (sum_cents stats - 10000) ≤ Z.of_nat (size stats).

(** The sizes that a report carries, one for each language (0 for an entry
    without the key), in the order of the report. *)
Definition reported_sizes (items : gmap string lang_info) : list Z :=
  (λ kv, default 0 (info_size kv.2)) <$> map_to_list items.

(** *** Vocabulary of the further properties *)

(** Whether a name has a NUL character: [open] raises [ValueError] on such a
    name without asking the file system. *)
Fixpoint has_nul (s : string) : bool :=
  match s with
  | EmptyString => false
  | String c s' => bool_decide (c = Ascii.zero) || has_nul s'
  end.

(** [NAME_MAX] and [PATH_MAX] of Linux. *)
Definition NAME_MAX : nat := 255.
Definition PATH_MAX : nat := 4096.

(** The paths that the tree resolves as the operating system does: no
    component is [..], has a NUL character or is longer than [NAME_MAX]
    bytes, and the whole path is shorter than [PATH_MAX]. *)
Definition plain_path (p : Path) : bool :=
  forallb (λ c, bool_decide (c ≠ "..") && negb (has_nul c)
                && bool_decide (String.length c ≤ NAME_MAX)%nat) p
  && bool_decide (String.length (path_str p) < PATH_MAX)%nat.

(** The answers of the file system on which [_count_lines] returns a count:
    the path leads to a regular file or to a directory, or a component of it
    is missing. *)
Definition countable (fs : Fs.node) (p : Path) : bool :=
  match Fs.resolve fs p with
  | Ok (Fs.File _ _) | Ok (Fs.Dir _) | Raise (FileNotFoundError _) => true
  | _ => false
  end.

(** The three git commands of [_init_git_repo], as events run in [cwd]. *)
Definition git_events (cwd : string) : list event :=
  [EvRun ["git"; "init"; "-q"] (Some cwd);
   EvRun ["git"; "add"; "-A"] (Some cwd);
   EvRun ["git"; "-c"; "user.name=linguist"; "-c"; "user.email=linguist@example.com";
          "commit"; "-m"; "Initial commit"; "-q"] (Some cwd)].

(** The arguments [_run_linguist_breakdown] passes. *)
Definition BREAKDOWN_ARGS : list string := ["--breakdown"; "--json"; "."].

(** The classifier's command line and working directory in either mode. *)
Definition classifier_run (self : LinguistWrapper) (uid gid : Z) (repo_dir : Path) : event :=
  if use_docker self
  then EvRun (docker_command self uid gid BREAKDOWN_ARGS repo_dir) None
  else EvRun (linguist_cmd self :: BREAKDOWN_ARGS) (Some (path_str repo_dir)).

(** The lines a path contributes to a count: the newline bytes of a readable
    regular file, and none for any other path. *)
Definition lines_of (fs : Fs.node) (p : Path) : Z :=
  match Fs.resolve fs p with
  | Ok (Fs.File true data) => count_newlines data
  | _ => 0
  end.

(** The paths on which [open] fails with an error that the [except] clause of
    [_count_lines] does not name: a path that runs through a node that is not
    a directory, and a path to a node that [open] refuses (see
    [Fs.open_rb]). *)
Definition unopenable (fs : Fs.node) (p : Path) : bool :=
  match Fs.resolve fs p with
  | Raise NotADirectoryError | Ok Fs.Special => true
  | _ => false
  end.

(** A float that is zero or positive: a finite magnitude, or [+inf]. *)
Definition float_nonneg (x : F64.float) : Prop :=
  match x with F64.Fin false m => 0 ≤ m | F64.Inf false => True | _ => False end.

(** A computation that, [d] and what is below it apart, leaves the files as
    they are. *)
Definition keeps (d : Path) {A} (m : M A) : Prop :=
  ∀ w r w', m w = (r, w') → Fs.rmtree (w_fs w') d = Fs.rmtree (w_fs w) d.

(** ** Sample worlds *)

Module Sample.

(** [n] lines of text. *)
Definition text_lines (n : nat) : bytes := concat (replicate n [x61; x0a]).

Definition project : Fs.node :=
  Fs.Dir {[ "main.py" := Fs.File true (text_lines 10);
            "lib.js" := Fs.File true (text_lines 30);
            "locked.txt" := Fs.File false (text_lines 5);
            "docs" := Fs.Dir ∅ ]}.

(** What the archive unpacks to: one folder, and the macOS metadata folder. *)
Definition unpacked : gmap string Fs.node :=
  {[ "project" := project; "__MACOSX" := Fs.Dir ∅ ]}.

Definition disk : Fs.node :=
  Fs.Dir {[ "tmp" := Fs.Dir ∅; "in.zip" := Fs.File true [] ]}.

(** The disk after the archive was unpacked into [/tmp/tmpabc]. *)
Definition extracted : Fs.node :=
  Fs.Dir {[ "tmp" := Fs.Dir {[ "tmpabc" := Fs.Dir unpacked ]};
            "in.zip" := Fs.File true [] ]}.

(** The tree with the node at [p] replaced. *)
Fixpoint put (cur : Fs.node) (p : Path) (n : Fs.node) : Fs.node :=
  match p, cur with
  | [], _ => n
  | x :: p', Fs.Dir es =>
      match es !! x with
      | Some c => Fs.Dir (<[x := put c p' n]> es)
      | None => cur
      end
  | _ :: _, _ => cur
  end.

Definition report : gmap string lang_info :=
  {[ "Python" := {| info_size := Some 250; info_files := Some ["main.py"] |};
     "JavaScript" := {| info_size := Some 750; info_files := Some ["lib.js"] |} ]}.

(** A report with an entry that has neither key. *)
Definition sparse_report : gmap string lang_info :=
  {[ "Python" := {| info_size := Some 250; info_files := Some ["main.py"] |};
     "Text" := {| info_size := None; info_files := None |} ]}.

(** A report with a negative size. *)
Definition negative_report : gmap string lang_info :=
  {[ "A" := {| info_size := Some (-1); info_files := None |};
     "B" := {| info_size := Some 2; info_files := None |} ]}.

(** A report with a size that is a double, while a hundred times the size is
    beyond the largest double. *)
Definition giant_report : gmap string lang_info :=
  {[ "A" := {| info_size := Some (10 ^ 307); info_files := None |} ]}.

Definition failed : CompletedProcess :=
  {| returncode := 1; stdout := "{}"; stderr := "boom" |}.

(** An environment in which git succeeds, the classifier exits with [rc] and
    its output decodes to [decoded]. *)
Definition env (rc : Z) (decoded : result json) : Env := {|
  tempdir := ["tmp"];
  candidate_names := ["abc"; "def"];
  zip_extractall := λ fs zip dest, (Ok tt, put fs dest (Fs.Dir unpacked));
  subprocess_run := λ fs cmd cwd,
    match cmd with
    | "git" :: _ => (Ok {| returncode := 0; stdout := ""; stderr := "" |}, fs)
    | _ => (Ok {| returncode := rc; stdout := "{}"; stderr := "boom" |}, fs)
    end;
  os_stat := λ fs p, Ok (1000, 1000);
  json_loads := λ s, decoded;
|}.

Definition start : world := World disk [].
(** A world whose root is the project itself, before and after the
    classifier ran there. *)
Definition at_project : world := World project [].
Definition after_run : world :=
  World project [EvRun ["github-linguist"; "--breakdown"; "--json"; "."] (Some "/")].

(** The results expected of the reports. *)
Definition expected_stats : gmap string lang_stat :=
  {[ "Python" := {| percent := F64.Fin false (25 * F64.SCALE); lines := 10 |};
     "JavaScript" := {| percent := F64.Fin false (75 * F64.SCALE); lines := 30 |} ]}.

Definition expected_sparse_stats : gmap string lang_stat :=
  {[ "Python" := {| percent := F64.Fin false (100 * F64.SCALE); lines := 10 |};
     "Text" := {| percent := F64.Fin false 0; lines := 0 |} ]}.

Definition negative_stats : gmap string lang_stat :=
  {[ "A" := {| percent := F64.Fin true (100 * F64.SCALE); lines := 0 |};
     "B" := {| percent := F64.Fin false (200 * F64.SCALE); lines := 0 |} ]}.

Definition giant_stats : gmap string lang_stat :=
  {[ "A" := {| percent := F64.Inf false; lines := 0 |} ]}.

Definition git_runs (cwd : string) : list event :=
  [EvRun ["git"; "init"; "-q"] (Some cwd);
   EvRun ["git"; "add"; "-A"] (Some cwd);
   EvRun ["git"; "-c"; "user.name=linguist"; "-c"; "user.email=linguist@example.com";
          "commit"; "-m"; "Initial commit"; "-q"] (Some cwd)].

(** The effects of a whole analysis in the local mode... *)
Definition final_trace : list event :=
  [EvMkdtemp ["tmp"; "tmpabc"]; EvExtract ["in.zip"] ["tmp"; "tmpabc"]]
  ++ git_runs "/tmp/tmpabc/project"
  ++ [EvRun ["github-linguist"; "--breakdown"; "--json"; "."]
        (Some "/tmp/tmpabc/project");
      EvRmtree ["tmp"; "tmpabc"]].

(** ... and in the container mode. *)
Definition failing_trace : list event :=
  [EvMkdtemp ["tmp"; "tmpabc"]; EvExtract ["in.zip"] ["tmp"; "tmpabc"]]
  ++ git_runs "/tmp/tmpabc/project"
  ++ [EvRun ["docker"; "run"; "--rm"; "--user"; "1000:1000";
             "-v"; "/tmp/tmpabc/project:/repo:ro"; "-w"; "/repo"; "linguist";
             "--breakdown"; "--json"; "."] None;
      EvRmtree ["tmp"; "tmpabc"]].

End Sample.

(** Further environments, reports and trees. *)
Module Variants.

(** An environment whose archive does not unpack. *)
Definition bad_zip : Env := {|
  tempdir := ["tmp"];
  candidate_names := ["abc"; "def"];
  zip_extractall := λ fs zip dest, (Raise BadZipFile, fs);
  subprocess_run := λ fs cmd cwd, (Ok {| returncode := 0; stdout := ""; stderr := "" |}, fs);
  os_stat := λ fs p, Ok (1000, 1000);
  json_loads := λ s, Raise JSONDecodeError;
|}.

(** An environment in which [git add] exits with code 128 and every other
    process with code 0. *)
Definition git_add_fails : Env := {|
  tempdir := ["tmp"];
  candidate_names := ["abc"; "def"];
  zip_extractall := λ fs zip dest, (Ok tt, Sample.put fs dest (Fs.Dir Sample.unpacked));
  subprocess_run := λ fs cmd cwd,
    match cmd with
    | "git" :: "add" :: _ => (Ok {| returncode := 128; stdout := ""; stderr := "" |}, fs)
    | _ => (Ok {| returncode := 0; stdout := "{}"; stderr := "" |}, fs)
    end;
  os_stat := λ fs p, Ok (1000, 1000);
  json_loads := λ s, Ok (JObject Sample.report);
|}.

(** A report that lists a path below a regular file. *)
Definition nested_report : gmap string lang_info :=
  {[ "Python" := {| info_size := Some 250; info_files := Some ["main.py/x"] |} ]}.

(** A report whose sizes are all zero or absent. *)
Definition zero_report : gmap string lang_info :=
  {[ "Text" := {| info_size := None; info_files := Some ["main.py"] |};
     "Markdown" := {| info_size := Some 0; info_files := None |} ]}.

Definition zero_stats : gmap string lang_stat :=
  {[ "Text" := {| percent := F64.Fin false 0; lines := 10 |};
     "Markdown" := {| percent := F64.Fin false 0; lines := 0 |} ]}.

(** A report with a size beyond the range of a float. *)
Definition huge_report : gmap string lang_info :=
  {[ "Python" := {| info_size := Some 250; info_files := None |};
     "Data" := {| info_size := Some (2 ^ 1024); info_files := None |} ]}.

(** The extraction directory of the sample without the macOS folder. *)
Definition extracted_plain : Fs.node :=
  Fs.Dir {[ "tmp" := Fs.Dir {[ "tmpabc" := Fs.Dir {[ "project" := Sample.project ]} ]};
            "in.zip" := Fs.File true [] ]}.

End Variants.

(** * Lemmas *)

(** ** Rounding *)

Module F64Facts.
Import F64.

Lemma rne_div_error a b : 0 < b → 2 * Z.abs (rne_div a b * b - a) ≤ b.
Proof.
  intros Hb. unfold rne_div.
  pose proof (Z.div_mod a b ltac:(lia)) as Ha.
  pose proof (Z.mod_pos_bound a b Hb) as Hr.
  destruct (Z.compare_spec (2 * (a mod b)) b); [destruct (Z.even _)|..]; lia.
Qed.

Lemma rne_div_mono a a' b : 0 < b → a ≤ a' → rne_div a b ≤ rne_div a' b.
Proof.
  intros Hb Hle. unfold rne_div.
  pose proof (Z.div_mod a b ltac:(lia)) as Ha.
  pose proof (Z.div_mod a' b ltac:(lia)) as Ha'.
  pose proof (Z.mod_pos_bound a b Hb) as Hr.
  pose proof (Z.mod_pos_bound a' b Hb) as Hr'.
  pose proof (Z.div_le_mono a a' b Hb Hle) as Hq.
  destruct (Z.eq_dec (a / b) (a' / b)) as [Heq|Hne].
  - rewrite <- Heq in *.
    destruct (Z.compare_spec (2 * (a mod b)) b), (Z.compare_spec (2 * (a' mod b)) b);
      destruct (Z.even (a / b)); lia.
  - destruct (Z.compare_spec (2 * (a mod b)) b), (Z.compare_spec (2 * (a' mod b)) b);
      destruct (Z.even (a / b)), (Z.even (a' / b)); lia.
Qed.

Lemma rne_div_exact k b : 0 < b → rne_div (k * b) b = k.
Proof.
  intros Hb. unfold rne_div.
  rewrite Z.div_mul, Z.mod_mul by lia.
  destruct (Z.compare_spec (2 * 0) b); lia.
Qed.

Lemma rne_div_le a b k : 0 < b → a ≤ k * b → rne_div a b ≤ k.
Proof.
  intros Hb H. rewrite <- (rne_div_exact k b Hb). by apply rne_div_mono.
Qed.

Lemma rne_div_ge a b k : 0 < b → k * b ≤ a → k ≤ rne_div a b.
Proof.
  intros Hb H. rewrite <- (rne_div_exact k b Hb) at 1. by apply rne_div_mono.
Qed.

Lemma rne_div_unique a b k : 0 < b → 2 * Z.abs (k * b - a) < b → rne_div a b = k.
Proof.
  intros Hb H. pose proof (rne_div_error a b Hb) as He.
  destruct (Z.lt_trichotomy (rne_div a b) k) as [Hlt|[Heq|Hgt]]; [exfalso|done|exfalso].
  - assert ((rne_div a b + 1) * b ≤ k * b) by (apply Z.mul_le_mono_nonneg_r; lia). lia.
  - assert ((k + 1) * b ≤ rne_div a b * b) by (apply Z.mul_le_mono_nonneg_r; lia). lia.
Qed.

Lemma shift_of_nonneg a b : 0 ≤ shift_of a b.
Proof. unfold shift_of. lia. Qed.

Lemma shift_of_cases a b :
  let s := shift_of a b in
  (s = 0 ∧ a / b < 2 ^ 53) ∨ (0 < s ∧ 2 ^ (52 + s) ≤ a / b < 2 ^ (53 + s)).
Proof.
  unfold shift_of. destruct (Z.le_gt_cases (a / b) 0) as [Hn|Hp].
  - left. split; [|lia].
    destruct (Z.eq_dec (a / b) 0) as [->|]; [done|].
    rewrite Z.log2_nonpos by lia. lia.
  - pose proof (Z.log2_spec _ Hp) as [Hlo Hhi].
    pose proof (Z.log2_nonneg (a / b)).
    destruct (Z.le_gt_cases (Z.log2 (a / b)) 52) as [Hs|Hs].
    + left. split; [lia|].
      eapply Z.lt_le_trans; [exact Hhi|]. apply Z.pow_le_mono_r; lia.
    + right. rewrite Z.max_r by lia. split; [lia|].
      replace (52 + (Z.log2 (a / b) + 1 - 53)) with (Z.log2 (a / b)) by lia.
      replace (53 + (Z.log2 (a / b) + 1 - 53)) with (Z.succ (Z.log2 (a / b))) by lia.
      done.
Qed.

Lemma round_mag_error a b t :
  0 ≤ a → 0 < b → 0 ≤ t → a < b * 2 ^ (53 + t) →
  2 * Z.abs (round_mag a b * b - a) ≤ b * 2 ^ t.
Proof.
  intros Ha Hb Ht Hlt. unfold round_mag.
  pose proof (shift_of_cases a b) as Hs. simpl in Hs.
  set (s := shift_of a b) in *.
  assert (0 ≤ s) as Hs0 by apply shift_of_nonneg.
  assert (0 < 2 ^ s) as Hp by (apply Z.pow_pos_nonneg; lia).
  assert (s ≤ t) as Hst.
  { destruct Hs as [[-> _]|[_ [Hlo _]]]; [done|].
    assert (a / b < 2 ^ (53 + t)) as Hq by (apply Z.div_lt_upper_bound; lia).
    assert (2 ^ (52 + s) < 2 ^ (53 + t)) as Hpow by lia.
    apply Z.pow_lt_mono_r_iff in Hpow; lia. }
  pose proof (rne_div_error a (b * 2 ^ s) ltac:(lia)) as He.
  assert (2 ^ s ≤ 2 ^ t) by (apply Z.pow_le_mono_r; lia).
  assert (b * 2 ^ s ≤ b * 2 ^ t) by (apply Z.mul_le_mono_nonneg_l; lia).
  replace (rne_div a (b * 2 ^ s) * 2 ^ s * b) with (rne_div a (b * 2 ^ s) * (b * 2 ^ s)) by lia.
  lia.
Qed.

Lemma round_mag_le a b c :
  representable c → 0 < b → a ≤ c * b → round_mag a b ≤ c.
Proof.
  intros (m & t & -> & Hm & Ht) Hb Hle. unfold round_mag.
  pose proof (shift_of_cases a b) as Hs. simpl in Hs.
  set (s := shift_of a b) in *.
  assert (0 < 2 ^ t) as Hpt by (apply Z.pow_pos_nonneg; lia).
  destruct Hs as [[-> _]|[Hs [Hlo _]]].
  - rewrite Z.pow_0_r, !Z.mul_1_r. by apply rne_div_le.
  - assert (a / b ≤ m * 2 ^ t) as Hq by (apply Z.div_le_upper_bound; lia).
    assert (m * 2 ^ t < 2 ^ 53 * 2 ^ t) as Hc by (apply Z.mul_lt_mono_pos_r; lia).
    rewrite <- Z.pow_add_r in Hc by lia.
    assert (2 ^ (52 + s) < 2 ^ (53 + t)) as Hpow by lia.
    apply Z.pow_lt_mono_r_iff in Hpow; [|lia..].
    assert (0 < 2 ^ s) as Hp by (apply Z.pow_pos_nonneg; lia).
    replace t with ((t - s) + s) in * by lia.
    rewrite Z.pow_add_r in * by lia.
    rewrite Z.mul_assoc. apply Z.mul_le_mono_nonneg_r; [lia|].
    apply rne_div_le; lia.
Qed.

Lemma round_mag_ge a b c :
  representable c → 0 ≤ a → 0 < b → c * b ≤ a → c ≤ round_mag a b.
Proof.
  intros (m & t & -> & Hm & Ht) Ha Hb Hle. unfold round_mag.
  pose proof (shift_of_cases a b) as Hs. simpl in Hs.
  set (s := shift_of a b) in *.
  assert (0 < 2 ^ t) as Hpt by (apply Z.pow_pos_nonneg; lia).
  destruct Hs as [[-> _]|[Hs [Hlo _]]].
  - rewrite Z.pow_0_r, !Z.mul_1_r. by apply rne_div_ge.
  - assert (0 < 2 ^ s) as Hp by (apply Z.pow_pos_nonneg; lia).
    destruct (Z.lt_ge_cases (m * 2 ^ t) (2 ^ (52 + s))) as [Hsmall|Hbig].
    + assert (2 ^ 52 ≤ rne_div a (b * 2 ^ s)) as Hr.
      { apply rne_div_ge; [lia|].
        pose proof (Z.mul_div_le a b Hb).
        assert (b * 2 ^ (52 + s) ≤ b * (a / b)) by (apply Z.mul_le_mono_nonneg_l; lia).
        rewrite Z.pow_add_r in * by lia. lia. }
      assert (2 ^ 52 * 2 ^ s ≤ rne_div a (b * 2 ^ s) * 2 ^ s)
        by (apply Z.mul_le_mono_nonneg_r; lia).
      rewrite Z.pow_add_r in Hsmall by lia. lia.
    + assert (m * 2 ^ t < 2 ^ 53 * 2 ^ t) as Hc by (apply Z.mul_lt_mono_pos_r; lia).
      rewrite <- Z.pow_add_r in Hc by lia.
      assert (2 ^ (52 + s) < 2 ^ (53 + t)) as Hpow by lia.
      apply Z.pow_lt_mono_r_iff in Hpow; [|lia..].
      replace t with ((t - s) + s) in * by lia.
      rewrite Z.pow_add_r in * by lia.
      rewrite Z.mul_assoc. apply Z.mul_le_mono_nonneg_r; [lia|].
      apply rne_div_ge; lia.
Qed.

Lemma round_mag_exact b c :
  representable c → 0 < b → round_mag (c * b) b = c.
Proof.
  intros Hc Hb. apply Z.le_antisymm.
  - by apply round_mag_le.
  - destruct Hc as (m & t & -> & Hm & Ht).
    apply round_mag_ge; [by exists m, t| |done|done].
    assert (0 < 2 ^ t) by (apply Z.pow_pos_nonneg; lia). nia.
Qed.

Lemma SCALE_pos : 0 < SCALE.
Proof. done. Qed.

Lemma SCALE_split : SCALE = 2 ^ 46 * 2 ^ 1028.
Proof. done. Qed.

Lemma LIMIT_split : LIMIT = 2 ^ 1024 * SCALE.
Proof. done. Qed.

Lemma representable_scaled n : 0 ≤ n < 2 ^ 53 → representable (n * SCALE).
Proof. intros Hn. by exists n, 1074. Qed.

Lemma round_mag_nonneg a b : 0 ≤ a → 0 < b → 0 ≤ round_mag a b.
Proof.
  intros Ha Hb. unfold round_mag.
  pose proof (shift_of_nonneg a b).
  assert (0 < 2 ^ shift_of a b) by (apply Z.pow_pos_nonneg; lia).
  apply Z.mul_nonneg_nonneg; [|lia].
  apply rne_div_ge; lia.
Qed.

Lemma fround_exact neg n b :
  0 ≤ n < 2 ^ 53 → 0 < b → fround neg (n * SCALE * b) b = Fin neg (n * SCALE).
Proof.
  intros Hn Hb. unfold fround.
  rewrite round_mag_exact by (done || by apply representable_scaled).
  case_match eqn:Hlt; [done|].
  apply Z.ltb_ge in Hlt. rewrite LIMIT_split in Hlt.
  pose proof SCALE_pos.
  assert (n * SCALE < 2 ^ 53 * SCALE) by (apply Z.mul_lt_mono_pos_r; lia).
  assert (2 ^ 53 * SCALE ≤ 2 ^ 1024 * SCALE) by (apply Z.mul_le_mono_nonneg_r; lia).
  lia.
Qed.

Lemma float_of_int_exact n :
  Z.abs n < 2 ^ 53 → float_of_int n = Ok (Fin (n <? 0) (Z.abs n * SCALE)).
Proof.
  intros Hn. unfold float_of_int.
  rewrite <- (Z.mul_1_r (Z.abs n * SCALE)) at 1.
  by rewrite fround_exact by lia.
Qed.

Lemma fmul_100_exact neg n :
  0 ≤ n → 100 * n < 2 ^ 53 →
  fmul (Fin neg (n * SCALE)) f100 = Fin neg (100 * n * SCALE).
Proof.
  intros Hn Hlt. unfold fmul, f100. rewrite xorb_false_r.
  replace (n * SCALE * (100 * SCALE)) with (100 * n * SCALE * SCALE) by lia.
  apply fround_exact; [lia|apply SCALE_pos].
Qed.

Lemma fdiv_finite s a t b :
  b ≠ 0 → fdiv (Fin s a) (Fin t b) = Ok (fround (xorb s t) (a * SCALE) b).
Proof. intros Hb. unfold fdiv. by destruct b. Qed.

(** The rounding back from [k] hundredths keeps the hundredths. *)
Lemma of_hundredths_range neg k :
  0 ≤ k ≤ 10000 →
  ∃ p, of_hundredths neg k = Fin neg p ∧ 0 ≤ p ≤ 100 * SCALE ∧ hundredths p = k.
Proof.
  intros Hk. pose proof SCALE_pos as HS. unfold of_hundredths, fround.
  set (p := round_mag (k * SCALE) 100).
  assert (0 ≤ p) as Hp0 by (apply round_mag_nonneg; lia).
  assert (p ≤ 100 * SCALE) as Hp1.
  { apply round_mag_le; [by apply representable_scaled|lia|].
    assert (k * SCALE ≤ 10000 * SCALE) by (apply Z.mul_le_mono_nonneg_r; lia). lia. }
  exists p. split; [|split; [done|]].
  - case_match eqn:Hlt; [done|]. apply Z.ltb_ge in Hlt. rewrite LIMIT_split in Hlt.
    assert (100 * SCALE < 2 ^ 1024 * SCALE) by (apply Z.mul_lt_mono_pos_r; lia). lia.
  - pose proof (round_mag_error (k * SCALE) 100 1028 ltac:(lia) ltac:(lia) ltac:(lia)) as He.
    fold p in He. unfold hundredths. rewrite SCALE_split in *.
    change (2 ^ (53 + 1028)) with (2 ^ 53 * 2 ^ 1028) in He.
    remember (2 ^ 1028) as W eqn:HeqW.
    assert (0 < W) as HW by (by subst W). clear HeqW.
    apply rne_div_unique; [lia|].
    assert (k * (2 ^ 46 * W) < 100 * (2 ^ 53 * W)) as Hlt.
    { assert (k * 2 ^ 46 * W < 100 * 2 ^ 53 * W) by (apply Z.mul_lt_mono_pos_r; lia). lia. }
    specialize (He Hlt). lia.
Qed.

Lemma percent_of_in_range s T :
  0 ≤ s ≤ T → 0 < T → 100 * T < 2 ^ 53 →
  ∃ p, percent_of s T = Ok (Fin false p) ∧ 0 ≤ p ≤ 100 * SCALE ∧
       0 ≤ hundredths p ≤ 10000 ∧
       of_hundredths false (hundredths p) = Fin false p ∧
       2 * Z.abs (hundredths p * T - 10000 * s) * 2 ^ 46 ≤ T * (2 ^ 46 + 100).
Proof.
  intros Hs HT Hbound. pose proof SCALE_pos as HS. unfold percent_of.
  rewrite !float_of_int_exact by lia.
  rewrite !Z.abs_eq by lia.
  replace (s <? 0) with false by lia. replace (T <? 0) with false by lia.
  cbn [mbind result_bind].
  rewrite fmul_100_exact by lia.
  rewrite fdiv_finite by lia. cbn [xorb].
  unfold fround.
  set (X := round_mag (100 * s * SCALE * SCALE) (T * SCALE)).
  assert (0 ≤ X) as HX0 by (apply round_mag_nonneg; nia).
  assert (X ≤ 100 * SCALE) as HX1.
  { apply round_mag_le; [by apply representable_scaled|lia|].
    assert (100 * s * SCALE ≤ 100 * T * SCALE) by (apply Z.mul_le_mono_nonneg_r; lia).
    assert (100 * s * SCALE * SCALE ≤ 100 * T * SCALE * SCALE)
      by (apply Z.mul_le_mono_nonneg_r; lia).
    lia. }
  assert ((X <? LIMIT) = true) as ->.
  { apply Z.ltb_lt. rewrite LIMIT_split.
    assert (100 * SCALE < 2 ^ 1024 * SCALE) by (apply Z.mul_lt_mono_pos_r; lia). lia. }
  cbn [mbind result_bind round2].
  set (K := hundredths X).
  assert (0 ≤ K ≤ 10000) as HK.
  { unfold K, hundredths. split; [apply rne_div_ge; lia|apply rne_div_le; lia]. }
  destruct (of_hundredths_range false K HK) as (p & Hof & Hp & Hhp).
  rewrite Hof. exists p. rewrite Hhp. split_and!; [done || lia..|].
  pose proof (rne_div_error (100 * X) SCALE HS) as He2. fold (hundredths X) in He2. fold K in He2.
  pose proof (round_mag_error (100 * s * SCALE * SCALE) (T * SCALE) 1028
                ltac:(nia) ltac:(lia) ltac:(lia)) as He1.
  fold X in He1.
  assert (2 * Z.abs (X * T - 100 * s * SCALE) ≤ T * 2 ^ 1028) as He1'.
  { assert (100 * s * SCALE * SCALE < T * SCALE * 2 ^ (53 + 1028)) as Hlt.
    { change (2 ^ (53 + 1028)) with (128 * SCALE).
      assert (100 * s * SCALE < 128 * T * SCALE) by (apply Z.mul_lt_mono_pos_r; lia).
      assert (100 * s * SCALE * SCALE < 128 * T * SCALE * SCALE)
        by (apply Z.mul_lt_mono_pos_r; lia).
      lia. }
    specialize (He1 Hlt).
    replace (X * (T * SCALE) - 100 * s * SCALE * SCALE)
      with ((X * T - 100 * s * SCALE) * SCALE) in He1 by lia.
    rewrite Z.abs_mul, (Z.abs_eq SCALE) in He1 by lia.
    apply (Z.mul_le_mono_pos_r _ _ SCALE); lia. }
  clear He1. rewrite SCALE_split in He1', He2, HS.
  remember (2 ^ 1028) as W eqn:HeqW.
  assert (0 < W) as HW by (by subst W). clear HeqW.
  assert (2 * Z.abs (T * (K * (2 ^ 46 * W) - 100 * X)) ≤ T * (2 ^ 46 * W)) as He2'.
  { rewrite Z.abs_mul, (Z.abs_eq T) by lia.
    assert (T * (2 * Z.abs (K * (2 ^ 46 * W) - 100 * X)) ≤ T * (2 ^ 46 * W))
      by (apply Z.mul_le_mono_nonneg_l; lia).
    lia. }
  assert (2 * Z.abs (K * T - 10000 * s) * 2 ^ 46 * W ≤ (T * 2 ^ 46 + 100 * T) * W) as Hsum.
  { replace (2 * Z.abs (K * T - 10000 * s) * 2 ^ 46 * W)
      with (2 * Z.abs ((K * T - 10000 * s) * (2 ^ 46 * W))).
    2:{ rewrite Z.abs_mul, (Z.abs_eq (2 ^ 46 * W)) by lia. lia. }
    lia. }
  apply (Z.mul_le_mono_pos_r _ _ W); [done|]. lia.
Qed.

(** Below [2^46 / 100] the slack of the division disappears: the hundredths
    are a nearest integer to the exact value. *)
Lemma nearest_of_slack D T :
  0 < T → 100 * T < 2 ^ 46 →
  2 * Z.abs D * 2 ^ 46 ≤ T * (2 ^ 46 + 100) → 2 * Z.abs D ≤ T.
Proof. lia. Qed.

Lemma round_mag_zero b : 0 < b → round_mag 0 b = 0.
Proof.
  intros Hb. unfold round_mag, shift_of. rewrite Z.div_0_l by lia.
  change (Z.max 0 (Z.log2 0 + 1 - 53)) with 0. rewrite Z.pow_0_r, !Z.mul_1_r.
  pose proof (rne_div_exact 0 b Hb) as H. by rewrite Z.mul_0_l in H.
Qed.

Lemma hundredths_zero : hundredths 0 = 0.
Proof.
  unfold hundredths. pose proof (rne_div_exact 0 SCALE SCALE_pos) as H.
  by rewrite Z.mul_0_l in H.
Qed.

Lemma fround_zero neg b : 0 < b → fround neg 0 b = Fin neg 0.
Proof. intros Hb. unfold fround. by rewrite round_mag_zero. Qed.

Lemma float_of_int_inv n y :
  n ≠ 0 → float_of_int n = Ok y → ∃ m, y = Fin (n <? 0) m ∧ 0 < m.
Proof.
  intros Hn. unfold float_of_int, fround.
  pose proof SCALE_pos.
  assert (SCALE ≤ round_mag (Z.abs n * SCALE) 1) as Hm.
  { apply round_mag_ge; [|nia|lia|nia].
    exists 1, 1074. split_and!; [by rewrite Z.mul_1_l|lia..]. }
  destruct (_ <? LIMIT); [|done]. intros [= <-]. eexists. split; [done|lia].
Qed.

Lemma percent_of_zero T p :
  T ≠ 0 → percent_of 0 T = Ok p → p = Fin (T <? 0) 0.
Proof.
  intros HT. unfold percent_of.
  change (float_of_int 0) with (Ok (Fin false 0)). cbn [mbind result_bind].
  destruct (float_of_int T) as [y|] eqn:Hy; [|done].
  apply float_of_int_inv in Hy as (m & -> & Hm); [|done].
  cbn [mbind result_bind]. unfold fmul, f100. cbn [xorb Z.mul].
  rewrite fround_zero by apply SCALE_pos.
  rewrite fdiv_finite by lia. cbn [xorb Z.mul mbind result_bind].
  rewrite fround_zero by done. cbn [round2].
  rewrite hundredths_zero. unfold of_hundredths. cbn [Z.mul].
  rewrite fround_zero by done. by intros [= <-].
Qed.

Lemma percent_of_zero_ok T y :
  T ≠ 0 → float_of_int T = Ok y → percent_of 0 T = Ok (Fin (T <? 0) 0).
Proof.
  intros HT Hy. destruct (percent_of 0 T) as [p|e] eqn:Hp.
  - by rewrite (percent_of_zero T p HT Hp).
  - exfalso. revert Hp. unfold percent_of.
    change (float_of_int 0) with (Ok (Fin false 0)). cbn [mbind result_bind].
    rewrite Hy. apply float_of_int_inv in Hy as (m & -> & Hm); [|done].
    cbn [mbind result_bind]. unfold fmul, f100. cbn [xorb Z.mul].
    rewrite fround_zero by apply SCALE_pos.
    rewrite fdiv_finite by lia. cbn [xorb Z.mul mbind result_bind].
    rewrite fround_zero by done. cbn [round2].
    rewrite hundredths_zero. unfold of_hundredths. cbn [Z.mul].
    by rewrite fround_zero by done.
Qed.

(** *** Sizes beyond [2^53]: the conversions and the product round too *)


(** Relative error of rounding in the normal range: one part in [2^53]. *)
Lemma round_mag_relative a b :
  0 < b → b * 2 ^ 52 ≤ a → 2 ^ 53 * Z.abs (round_mag a b * b - a) ≤ a.
Proof.
  intros Hb Hnorm. unfold round_mag.
  pose proof (shift_of_cases a b) as Hs. cbn zeta in Hs.
  set (s := shift_of a b) in *.
  assert (0 < 2 ^ s) as Hp by (apply Z.pow_pos_nonneg; apply shift_of_nonneg || lia).
  pose proof (rne_div_error a (b * 2 ^ s) ltac:(lia)) as He.
  replace (rne_div a (b * 2 ^ s) * 2 ^ s * b)
    with (rne_div a (b * 2 ^ s) * (b * 2 ^ s)) by lia.
  destruct Hs as [[Hs0 _]|[Hs [Hlo _]]].
  - rewrite Hs0, Z.pow_0_r, Z.mul_1_r in *. lia.
  - assert (b * 2 ^ (52 + s) ≤ a) as Hlow.
    { pose proof (Z.mul_div_le a b Hb).
      assert (b * 2 ^ (52 + s) ≤ b * (a / b)) by (apply Z.mul_le_mono_nonneg_l; lia).
      lia. }
    rewrite Z.pow_add_r in Hlow by lia. lia.
Qed.

Lemma SCALE_large : 2 ^ 1053 * 4 ≤ SCALE.
Proof. done. Qed.

Lemma LIMIT_large : 2 ^ 1020 * SCALE < LIMIT.
Proof. done. Qed.

(** A quotient strictly below the tie above [k] does not round beyond [k]. *)
Lemma rne_div_below_tie a b k : 0 < b → 2 * a < (2 * k + 1) * b → rne_div a b ≤ k.
Proof.
  intros Hb Hlt. pose proof (rne_div_error a b Hb) as He.
  destruct (Z.le_gt_cases (rne_div a b) k) as [|Hgt]; [done|exfalso].
  assert ((k + 1) * b ≤ rne_div a b * b) by (apply Z.mul_le_mono_nonneg_r; lia).
  lia.
Qed.

(** [float(n)] for a positive int below [2^1010]: finite, and off by at most
    one part in [2^53]. *)
Lemma float_of_int_positive n :
  1 ≤ n < 2 ^ 1010 →
  ∃ m, float_of_int n = Ok (Fin false m) ∧
       2 ^ 53 * Z.abs (m - n * SCALE) ≤ n * SCALE.
Proof.
  intros Hn. pose proof SCALE_pos as HS. pose proof SCALE_large as HL.
  pose proof LIMIT_large as HLim.
  unfold float_of_int, fround. rewrite Z.abs_eq by lia.
  replace (n <? 0) with false by lia.
  set (m := round_mag (n * SCALE) 1).
  assert (1 * SCALE ≤ n * SCALE) by (apply Z.mul_le_mono_nonneg_r; lia).
  assert (n * SCALE < 2 ^ 1010 * SCALE) by (apply Z.mul_lt_mono_pos_r; lia).
  assert (2 ^ 1010 * SCALE * 2 ≤ 2 ^ 1020 * SCALE).
  { replace (2 ^ 1010 * SCALE * 2) with (2 ^ 1011 * SCALE) by (change (2 ^ 1011) with (2 ^ 1010 * 2); lia).
    apply Z.mul_le_mono_nonneg_r; lia. }
  pose proof (round_mag_relative (n * SCALE) 1 ltac:(lia) ltac:(lia)) as Hrel.
  fold m in Hrel. rewrite Z.mul_1_r in Hrel.
  assert ((m <? LIMIT) = true) as -> by (apply Z.ltb_lt; lia).
  by exists m.
Qed.

(** The percentage of [s] bytes out of [T], for all sizes that binary64 can
    hold with room to spare: conversions and the product may round, and the
    result is still within [1/2 + 10^5 / 2^54] hundredths of the exact
    value. *)

Lemma percent_of_accurate s T :
  0 ≤ s ≤ T → 0 < T < 2 ^ 1000 →
  ∃ p, percent_of s T = Ok (Fin false p) ∧ 0 ≤ p ≤ 100 * SCALE ∧
       0 ≤ hundredths p ≤ 10000 ∧
       of_hundredths false (hundredths p) = Fin false p ∧
       2 * Z.abs (hundredths p * T - 10000 * s) * 2 ^ 53 ≤ T * (2 ^ 53 + 10 ^ 5).
Proof.
  intros Hs HT. pose proof SCALE_pos as HS. pose proof SCALE_large as HL.
  pose proof LIMIT_large as HLim.
  destruct (float_of_int_positive T ltac:(lia)) as (Tf & HTf & HTrel).
  destruct (Z.eq_dec s 0) as [->|Hs0].
  { exists 0. rewrite (percent_of_zero_ok T _ ltac:(lia) HTf).
    replace (T <? 0) with false by lia. rewrite hundredths_zero.
    split_and!; [done|lia..| |lia].
    unfold of_hundredths. cbn [Z.mul]. by apply fround_zero. }
  destruct (float_of_int_positive s ltac:(lia)) as (Sf & HSf & HSrel).
  unfold percent_of. rewrite HSf, HTf. cbn [mbind result_bind].
  assert (1 * SCALE ≤ s * SCALE) as Hs1 by (apply Z.mul_le_mono_nonneg_r; lia).
  assert (s * SCALE ≤ T * SCALE) as HsT by (apply Z.mul_le_mono_nonneg_r; lia).
  assert (T * SCALE < 2 ^ 1000 * SCALE) as HTS by (apply Z.mul_lt_mono_pos_r; lia).
  (* the product *)
  unfold fmul, f100. cbn [xorb]. unfold fround.
  set (M := round_mag (Sf * (100 * SCALE)) SCALE).
  pose proof (round_mag_relative (Sf * (100 * SCALE)) SCALE HS) as HMrel.
  fold M in HMrel.
  assert (SCALE * 2 ^ 52 ≤ Sf * (100 * SCALE)) as HMnorm.
  { assert (2 ^ 52 * SCALE ≤ 100 * Sf * SCALE) by (apply Z.mul_le_mono_nonneg_r; lia).
    lia. }
  specialize (HMrel HMnorm).
  replace (M * SCALE - Sf * (100 * SCALE)) with ((M - 100 * Sf) * SCALE) in HMrel by lia.
  rewrite Z.abs_mul, (Z.abs_eq SCALE) in HMrel by lia.
  assert (2 ^ 53 * Z.abs (M - 100 * Sf) ≤ 100 * Sf) as HMrel'.
  { apply (Z.mul_le_mono_pos_r _ _ SCALE); lia. }
  assert ((M <? LIMIT) = true) as ->.
  { apply Z.ltb_lt.
    assert (2 ^ 1000 * SCALE * 2 ^ 10 ≤ 2 ^ 1020 * SCALE); [|lia].
    replace (2 ^ 1000 * SCALE * 2 ^ 10) with (2 ^ 1010 * SCALE)
      by (change (2 ^ 1010) with (2 ^ 1000 * 2 ^ 10); lia).
    apply Z.mul_le_mono_nonneg_r; lia. }
  (* the quotient *)
  assert (Tf ≠ 0) as HTf0 by lia.
  rewrite fdiv_finite by done. cbn [xorb mbind result_bind]. unfold fround.
  set (Q := round_mag (M * SCALE) Tf).
  assert (0 ≤ Q) as HQ0 by (apply round_mag_nonneg; [apply Z.mul_nonneg_nonneg|]; lia).
  pose proof (round_mag_relative (M * SCALE) Tf ltac:(lia)) as HQrel. fold Q in HQrel.
  assert (Tf * 2 ^ 52 ≤ M * SCALE) as HQnorm.
  { assert (25 * SCALE ≤ M) by lia.
    assert (25 * SCALE * SCALE ≤ M * SCALE) by (apply Z.mul_le_mono_nonneg_r; lia).
    assert (2 ^ 1053 * 4 * SCALE ≤ SCALE * SCALE) by (apply Z.mul_le_mono_nonneg_r; lia).
    assert (Tf * 2 ^ 52 ≤ 2 ^ 1001 * SCALE * 2 ^ 52); [|lia].
    apply Z.mul_le_mono_nonneg_r; lia. }
  specialize (HQrel HQnorm).
  (* the products that tie the four roundings together *)
  assert (2 ^ 53 * Z.abs (M * SCALE - 100 * (Sf * SCALE)) ≤ 100 * (Sf * SCALE)) as HaM.
  { replace (M * SCALE - 100 * (Sf * SCALE)) with ((M - 100 * Sf) * SCALE) by lia.
    rewrite Z.abs_mul, (Z.abs_eq SCALE) by lia.
    assert (2 ^ 53 * Z.abs (M - 100 * Sf) * SCALE ≤ 100 * Sf * SCALE)
      by (apply Z.mul_le_mono_nonneg_r; lia).
    lia. }
  assert (2 ^ 53 * Z.abs (Sf * SCALE - s * SCALE * SCALE) ≤ s * SCALE * SCALE) as HaS.
  { replace (Sf * SCALE - s * SCALE * SCALE) with ((Sf - s * SCALE) * SCALE) by lia.
    rewrite Z.abs_mul, (Z.abs_eq SCALE) by lia.
    assert (2 ^ 53 * Z.abs (Sf - s * SCALE) * SCALE ≤ s * SCALE * SCALE)
      by (apply Z.mul_le_mono_nonneg_r; lia).
    lia. }
  assert (2 ^ 53 * Z.abs (Q * Tf - Q * (T * SCALE)) ≤ Q * (T * SCALE)) as HaT.
  { replace (Q * Tf - Q * (T * SCALE)) with (Q * (Tf - T * SCALE)) by lia.
    rewrite Z.abs_mul, (Z.abs_eq Q) by lia.
    assert (Q * (2 ^ 53 * Z.abs (Tf - T * SCALE)) ≤ Q * (T * SCALE))
      by (apply Z.mul_le_mono_nonneg_l; lia).
    lia. }
  assert (0 ≤ Q * (T * SCALE)) as Hq0
    by (apply Z.mul_nonneg_nonneg; [lia | apply Z.mul_nonneg_nonneg; lia]).
  assert (0 ≤ s * SCALE * SCALE) as Hs0'
    by (apply Z.mul_nonneg_nonneg; [apply Z.mul_nonneg_nonneg; lia | lia]).
  assert (2 ^ 53 * Z.abs (Q * (T * SCALE) - 100 * (s * SCALE * SCALE))
          ≤ 500 * (s * SCALE * SCALE)) as Hchain.
  { revert HQrel HaM HaS HaT Hq0 Hs0'.
    generalize (Q * Tf) (M * SCALE) (Sf * SCALE) (s * SCALE * SCALE) (Q * (T * SCALE)).
    intros a2 a3 a4 a5 a1. lia. }
  assert (2 ^ 53 * Z.abs (Q * T - 100 * s * SCALE) ≤ 500 * s * SCALE) as Hchain'.
  { replace (Q * (T * SCALE) - 100 * (s * SCALE * SCALE))
      with ((Q * T - 100 * s * SCALE) * SCALE) in Hchain by lia.
    rewrite Z.abs_mul, (Z.abs_eq SCALE) in Hchain by lia.
    apply (Z.mul_le_mono_pos_r _ _ SCALE); lia. }
  clear Hchain HaT HaS HaM HQrel HQnorm HMrel HMnorm.
  assert (2 ^ 53 * Q ≤ (2 ^ 53 + 5) * (100 * SCALE)) as HQup.
  { apply (Z.mul_le_mono_pos_r _ _ T); [lia|].
    assert (500 * s * SCALE ≤ 500 * (T * SCALE)) by lia.
    assert (100 * s * SCALE ≤ 100 * (T * SCALE)) by lia.
    replace (2 ^ 53 * Q * T) with (2 ^ 53 * (Q * T)) by lia.
    replace ((2 ^ 53 + 5) * (100 * SCALE) * T)
      with (2 ^ 53 * (100 * (T * SCALE)) + 500 * (T * SCALE)) by lia.
    lia. }
  assert ((Q <? LIMIT) = true) as ->.
  { apply Z.ltb_lt.
    assert (2 ^ 10 * SCALE ≤ 2 ^ 1020 * SCALE) by (apply Z.mul_le_mono_nonneg_r; lia).
    lia. }
  cbn [round2].
  set (K := hundredths Q).
  assert (0 ≤ K ≤ 10000) as HK.
  { unfold K, hundredths. split; [apply rne_div_ge; lia|].
    apply rne_div_below_tie; lia. }
  destruct (of_hundredths_range false K HK) as (p & Hof & Hp & Hhp).
  rewrite Hof. exists p. rewrite Hhp. split_and!; [done || lia..|].
  pose proof (rne_div_error (100 * Q) SCALE HS) as He2.
  fold (hundredths Q) in He2. fold K in He2.
  assert (2 * Z.abs (T * (K * SCALE - 100 * Q)) ≤ T * SCALE) as He2'.
  { rewrite Z.abs_mul, (Z.abs_eq T) by lia.
    assert (T * (2 * Z.abs (K * SCALE - 100 * Q)) ≤ T * SCALE)
      by (apply Z.mul_le_mono_nonneg_l; lia).
    lia. }
  assert (2 * Z.abs (K * T - 10000 * s) * 2 ^ 53 * SCALE
          ≤ T * (2 ^ 53 + 10 ^ 5) * SCALE) as Hfinal.
  { replace (2 * Z.abs (K * T - 10000 * s) * 2 ^ 53 * SCALE)
      with (2 * 2 ^ 53 * Z.abs ((K * T - 10000 * s) * SCALE)).
    2:{ rewrite Z.abs_mul, (Z.abs_eq SCALE) by lia. lia. }
    replace ((K * T - 10000 * s) * SCALE)
      with (T * (K * SCALE - 100 * Q) + 100 * (Q * T - 100 * s * SCALE)) by lia.
    assert (500 * s * SCALE ≤ 500 * (T * SCALE)) by lia.
    lia. }
  apply (Z.mul_le_mono_pos_r _ _ SCALE); [done|]. lia.
Qed.

(** *** The model against the Standard Library's IEEE 754 operations, and
    against values that Python prints *)

Example float_of_int_matches_stdlib :
  (λ n, spec_of_result (float_of_int n))
    <$> [0; 1; 250; -750; 2 ^ 53 + 1; 2 ^ 53 + 3; 10 ^ 30 + 12345; - (10 ^ 30 + 12345)]
  = spec_of_int
    <$> [0; 1; 250; -750; 2 ^ 53 + 1; 2 ^ 53 + 3; 10 ^ 30 + 12345; - (10 ^ 30 + 12345)].
Proof. vm_compute; reflexivity. Qed.

Example fmul_matches_stdlib :
  (λ n, spec_of_result (x ← float_of_int n; Ok (fmul x f100)))
    <$> [0; 1; 250; -750; 2 ^ 53 - 1; 10 ^ 22 + 1]
  = (λ n, SFmul 53 1024 (spec_of_int n) (spec_of_int 100))
    <$> [0; 1; 250; -750; 2 ^ 53 - 1; 10 ^ 22 + 1].
Proof. vm_compute; reflexivity. Qed.

Example fdiv_matches_stdlib :
  (λ ab, spec_of_result (x ← float_of_int ab.1; y ← float_of_int ab.2; fdiv x y))
    <$> [(100, 3); (25000, 1000); (7, 1000000007); (-100, 7); (3333, 100); (1, 100);
         (10 ^ 30, 3)]
  = (λ ab, SFdiv 53 1024 (spec_of_int ab.1) (spec_of_int ab.2))
    <$> [(100, 3); (25000, 1000); (7, 1000000007); (-100, 7); (3333, 100); (1, 100);
         (10 ^ 30, 3)].
Proof. vm_compute; reflexivity. Qed.

(** [round(0.125, 2) = 0.12], [round(0.375, 2) = 0.38], [round(2.675, 2) = 2.67],
    [round(0.045, 2) = 0.04], [round(1.005, 2) = 1.0], [round(0.005, 2) = 0.01],
    [round(0.015, 2) = 0.01], [round(0.025, 2) = 0.03]. *)
Example round2_python_values :
  (λ a, round2_cents a 1000) <$> [125; 375; 2675; 45; 1005; 5; 15; 25]
  = Ok <$> [12; 38; 267; 4; 100; 1; 1; 3].
Proof. vm_compute; reflexivity. Qed.

(** Beyond the range of binary64: [10**307 * 100.0] is [inf], and [10**400]
    does not convert. *)
Example percent_of_giant_sizes :
  percent_of (10 ^ 307) (10 ^ 307) = Ok (Inf false) ∧
  percent_of (10 ^ 400) 5 = Raise OverflowError.
Proof. split; vm_compute; reflexivity. Qed.

End F64Facts.

(** ** Chunked reading *)

Lemma count_newlines_app (a b : bytes) :
  count_newlines (a ++ b) = count_newlines a + count_newlines b.
Proof. unfold count_newlines. rewrite filter_app, length_app. lia. Qed.

Lemma read_loop_count (n : nat) (data : bytes) :
  (0 < n)%nat → read_loop n data = count_newlines data.
Proof.
  intros Hn. funelim (read_loop n data).
  - destruct n; [lia|]. by destruct data.
  - match goal with
    | IH : _ → read_loop _ _ = count_newlines _, Hc : take _ _ = _ :: _ |- _ =>
        rewrite IH, <- Hc by done
    end.
    by rewrite <- count_newlines_app, take_drop.
Qed.

Lemma CHUNK_pos : (0 < CHUNK)%nat.
Proof. unfold CHUNK. apply Nat2Z.inj_lt. rewrite Z2Nat.id; done. Qed.

Lemma CHUNK_value : Z.of_nat CHUNK = 1048576.
Proof. unfold CHUNK. by rewrite Z2Nat.id. Qed.

(** The [except] clause names three exception classes and no others: a path
    that runs through a regular file ([ENOTDIR]), or one that ends at a node
    that is neither a file nor a directory, raises an error that
    [_count_lines] passes on. *)
Lemma count_lines_passes_other_errors (fs : Fs.node) (file_path : Path) :
  (Fs.resolve fs file_path = Raise NotADirectoryError →
     _count_lines fs file_path = Raise NotADirectoryError) ∧
  (Fs.resolve fs file_path = Ok Fs.Special →
     _count_lines fs file_path = Raise OSError).
Proof. unfold _count_lines, Fs.open_rb. by split; intros ->. Qed.

(** ** The file-system tree *)

Lemma resolve_app (cur : Fs.node) (p q : Path) :
  Fs.resolve cur (p ++ q) = n ← Fs.resolve cur p; Fs.resolve n q.
Proof.
  revert cur. induction p as [|x p IH]; intros cur; [done|].
  cbn [app Fs.resolve]. destruct cur as [| es |]; try done.
  destruct (es !! x); [apply IH|done].
Qed.

Lemma rmtree_gone (cur : Fs.node) (p q : Path) :
  p ≠ [] → exists_path (Fs.rmtree cur p) (p ++ q) = false.
Proof.
  unfold exists_path. revert cur. induction p as [|x p IH]; intros cur Hp; [done|].
  destruct cur as [| es |]; try done.
  cbn [Fs.rmtree]. destruct p as [|y p].
  - cbn. by rewrite lookup_delete_eq.
  - destruct (es !! x) as [c|] eqn:Hx.
    + cbn [app Fs.resolve]. rewrite lookup_insert_eq. by apply IH.
    + cbn [app Fs.resolve]. by rewrite Hx.
Qed.

Lemma mkdtemp_from_nonempty names base fs d fs' :
  mkdtemp_from names base fs = Ok (d, fs') → d ≠ [].
Proof.
  induction names as [|n names IH]; [done|]. cbn [mkdtemp_from].
  destruct (Fs.mkdir fs _) as [?|[]]; try done.
  - intros [= <- _]. by destruct base.
Qed.

(** ** Root detection *)

Section detect.
Context (fs : Fs.node) (d : Path) (es : gmap string Fs.node).
Hypothesis Hd : Fs.resolve fs d = Ok (Fs.Dir es).

Lemma resolve_child x : Fs.resolve fs (d ++ [x]) =
  match es !! x with Some c => Ok c | None => Raise (FileNotFoundError "") end.
Proof using Hd. rewrite resolve_app, Hd. cbn. by destruct (es !! x). Qed.

Lemma is_dir_child x : Fs.is_dir fs (d ++ [x]) = true ↔ ∃ c, es !! x = Some c ∧ is_Dir c.
Proof using Hd.
  unfold Fs.is_dir. rewrite resolve_child. destruct (es !! x) as [c|].
  - split.
    + intros Hc. exists c. split; [done|]. by destruct c.
    + intros (c' & [= <-] & Hc). by destruct c.
  - split; [done|]. by intros (c' & [=] & _).
Qed.

Lemma is_file_child x : Fs.is_file fs (d ++ [x]) = true ↔ ∃ c, es !! x = Some c ∧ is_File c.
Proof using Hd.
  unfold Fs.is_file. rewrite resolve_child. destruct (es !! x) as [c|].
  - split.
    + intros Hc. exists c. split; [done|]. by destruct c.
    + intros (c' & [= <-] & Hc). by destruct c.
  - split; [done|]. by intros (c' & [=] & _).
Qed.

Lemma name_child x : Fs.name (d ++ [x]) = x.
Proof. unfold Fs.name. by rewrite List.last_last. Qed.

Let listing := (λ kv : string * Fs.node, d ++ [kv.1]) <$> map_to_list es.

Lemma iterdir_listing : Fs.iterdir fs d = Ok listing.
Proof using Hd. unfold Fs.iterdir. by rewrite Hd. Qed.

Lemma listing_NoDup : NoDup listing.
Proof.
  apply NoDup_fmap_2_strong; [|apply NoDup_map_to_list].
  intros [x c] [y c'] Hx Hy Heq. cbn in Heq. apply app_inj_tail in Heq as [_ ->].
  apply elem_of_map_to_list in Hx, Hy. congruence.
Qed.

Lemma elem_of_listing p : p ∈ listing ↔ ∃ x c, p = d ++ [x] ∧ es !! x = Some c.
Proof.
  unfold listing. rewrite list_elem_of_fmap. split.
  - intros ([x c] & -> & Hx). apply elem_of_map_to_list in Hx. eauto.
  - intros (x & c & -> & Hx). exists (x, c). by rewrite elem_of_map_to_list.
Qed.

(** A duplicate-free list of children that holds exactly the children named
    by a set has as many elements as the set. *)
Lemma children_of_set (l : list Path) (X : gset string) :
  NoDup l → (∀ p, p ∈ l ↔ ∃ x, p = d ++ [x] ∧ x ∈ X) →
  l ≡ₚ (λ x, d ++ [x]) <$> elements X.
Proof.
  intros Hl Hiff. apply NoDup_Permutation; [done| |].
  - apply NoDup_fmap_2; [|apply NoDup_elements].
    intros x y Heq. by apply app_inj_tail in Heq as [_ ->].
  - intros p. rewrite Hiff, list_elem_of_fmap. by setoid_rewrite elem_of_elements.
Qed.

Let entries := filter (λ p, Fs.name p ≠ "__MACOSX") listing.
Let subdirs := filter (λ p, Fs.is_dir fs p = true) entries.
Let files := filter (λ p, Fs.is_file fs p = true) entries.

Lemma subdirs_perm : subdirs ≡ₚ (λ x, d ++ [x]) <$> elements (subdir_names es).
Proof using Hd.
  apply children_of_set.
  - do 2 apply NoDup_filter. apply listing_NoDup.
  - intros p. unfold subdirs, entries, subdir_names.
    rewrite !list_elem_of_filter, elem_of_listing. split.
    + intros (Hdir & Hname & x & c & -> & Hx). exists x. split; [done|].
      rewrite name_child in Hname. apply is_dir_child in Hdir as (c' & Hc' & ?).
      apply elem_of_dom. exists c'. by apply map_lookup_filter_Some.
    + intros (x & -> & Hx). apply elem_of_dom in Hx as [c Hc].
      apply map_lookup_filter_Some in Hc as [Hc [Hn Hdir]]. cbn in *.
      rewrite name_child. split_and!; [|done|by eauto].
      apply is_dir_child. eauto.
Qed.

Lemma files_perm : files ≡ₚ (λ x, d ++ [x]) <$> elements (file_names es).
Proof using Hd.
  apply children_of_set.
  - do 2 apply NoDup_filter. apply listing_NoDup.
  - intros p. unfold files, entries, file_names.
    rewrite !list_elem_of_filter, elem_of_listing. split.
    + intros (Hfile & Hname & x & c & -> & Hx). exists x. split; [done|].
      rewrite name_child in Hname. apply is_file_child in Hfile as (c' & Hc' & ?).
      apply elem_of_dom. exists c'. by apply map_lookup_filter_Some.
    + intros (x & -> & Hx). apply elem_of_dom in Hx as [c Hc].
      apply map_lookup_filter_Some in Hc as [Hc [Hn Hfile]]. cbn in *.
      rewrite name_child. split_and!; [|done|by eauto].
      apply is_file_child. eauto.
Qed.

Lemma detect_unfold :
  _detect_project_root fs d =
    Ok (if bool_decide (length subdirs = 1%nat) && bool_decide (files = [])
        then default d (head subdirs) else d).
Proof using Hd. unfold _detect_project_root. by rewrite iterdir_listing. Qed.

Lemma detect_single x :
  subdir_names es = {[x]} → file_names es = ∅ →
  _detect_project_root fs d = Ok (d ++ [x]).
Proof using Hd.
  intros Hs Hf. rewrite detect_unfold.
  pose proof subdirs_perm as Hp. rewrite Hs, elements_singleton in Hp.
  apply Permutation_singleton_r in Hp.
  pose proof files_perm as Hq. rewrite Hf, elements_empty in Hq.
  apply Permutation_nil_r in Hq.
  by rewrite Hp, Hq.
Qed.

Lemma detect_other :
  size (subdir_names es) ≠ 1%nat ∨ file_names es ≠ ∅ →
  _detect_project_root fs d = Ok d.
Proof using Hd.
  intros Hcase. rewrite detect_unfold.
  case_bool_decide as Hlen; [|done]. case_bool_decide as Hnil; [|done].
  exfalso. destruct Hcase as [Hs|Hf].
  - apply Hs. pose proof subdirs_perm as Hp. apply Permutation_length in Hp.
    rewrite length_fmap in Hp. unfold size, set_size. cbn. congruence.
  - apply Hf. pose proof files_perm as Hq. rewrite Hnil in Hq.
    symmetry in Hq. apply Permutation_nil_r in Hq. apply fmap_nil_inv in Hq.
    by apply elements_empty_inv, leibniz_equiv in Hq.
Qed.
End detect.

(** ** The aggregation loop *)

Section loop.
Context (fs : Fs.node) (repo_dir : Path) (total : Z).

Lemma stats_loop_inv (items : list (string * lang_info)) (acc stats : gmap string lang_stat) :
  stats_loop fs repo_dir total items acc = Ok stats →
  Forall (λ kv, language_stat fs repo_dir total kv.2
                = Ok (stat_of fs repo_dir total kv.2)) items ∧
  stats = foldl (λ m kv, <[kv.1 := stat_of fs repo_dir total kv.2]> m) acc items.
Proof.
  revert acc. induction items as [|[language info] items IH]; intros acc.
  - intros [= <-]. by split.
  - cbn [stats_loop foldl].
    destruct (language_stat fs repo_dir total info) as [st|e] eqn:Hst; [|done].
    cbn [mbind result_bind]. intros Hloop.
    assert (stat_of fs repo_dir total info = st) as Hof 
      by (unfold stat_of; by rewrite Hst).
    apply IH in Hloop as [Hall ->]. split.
    + constructor; [cbn; congruence|done].
    + cbn. by rewrite Hof.
Qed.

Lemma stats_loop_total (items : list (string * lang_info)) (acc : gmap string lang_stat) :
  Forall (λ kv, ∃ st, language_stat fs repo_dir total kv.2 = Ok st) items →
  ∃ stats, stats_loop fs repo_dir total items acc = Ok stats.
Proof.
  revert acc. induction items as [|[language info] items IH]; intros acc Hall.
  - by eexists.
  - apply Forall_cons in Hall as [[st Hst] Hall]. cbn [stats_loop]. cbn in Hst.
    rewrite Hst. cbn [mbind result_bind]. by apply IH.
Qed.

Lemma foldl_insert_lookup (items : list (string * lang_info))
    (acc : gmap string lang_stat) (k : string) :
  NoDup items.*1 →
  foldl (λ m kv, <[kv.1 := stat_of fs repo_dir total kv.2]> m) acc items !! k =
    match (list_to_map items : gmap string lang_info) !! k with
    | Some info => Some (stat_of fs repo_dir total info)
    | None => acc !! k
    end.
Proof.
  revert acc. induction items as [|[k0 v0] items IH]; intros acc Hnd; [done|].
  apply NoDup_cons in Hnd as [Hk0 Hnd]. cbn [foldl list_to_map foldr fst snd].
  rewrite IH by done. destruct (decide (k = k0)) as [->|Hne].
  - rewrite (not_elem_of_list_to_map_1 _ _ Hk0), !lookup_insert_eq. done.
  - by rewrite !lookup_insert_ne by done.
Qed.

Lemma stats_loop_fmap (m : gmap string lang_info) (stats : gmap string lang_stat) :
  stats_loop fs repo_dir total (map_to_list m) ∅ = Ok stats →
  stats = stat_of fs repo_dir total <$> m ∧
  ∀ language info, m !! language = Some info →
    language_stat fs repo_dir total info = Ok (stat_of fs repo_dir total info).
Proof.
  intros Hloop. apply stats_loop_inv in Hloop as [Hall ->]. split.
  - apply map_eq. intros k.
    rewrite foldl_insert_lookup by apply NoDup_fst_map_to_list.
    rewrite list_to_map_to_list, lookup_fmap, lookup_empty.
    by destruct (m !! k).
  - intros language info Hin. rewrite Forall_forall in Hall.
    apply (Hall (language, info)). by apply elem_of_map_to_list.
Qed.

Lemma stats_loop_returns (m : gmap string lang_info) :
  (∀ language info, m !! language = Some info →
     ∃ st, language_stat fs repo_dir total info = Ok st) →
  ∃ stats, stats_loop fs repo_dir total (map_to_list m) ∅ = Ok stats.
Proof.
  intros Hall. apply stats_loop_total. apply Forall_forall. intros [k v] Hin.
  apply elem_of_map_to_list in Hin. eauto.
Qed.
End loop.

Lemma sum_sizes_delete (items : gmap string lang_info) language info :
  items !! language = Some info →
  sum_sizes items = default 0 (info_size info) + sum_sizes (delete language items).
Proof.
  intros Hin. unfold sum_sizes.
  rewrite (map_fold_delete_L _ _ language info items); [done| |done].
  intros. lia.
Qed.

Lemma total_bytes_nonzero (items : gmap string lang_info) : total_bytes items ≠ 0.
Proof. unfold total_bytes. by case_bool_decide. Qed.

Lemma sum_lines_nil fs repo_dir : sum_lines fs repo_dir [] = Ok 0.
Proof. done. Qed.

Lemma fold_sum_bound (f g : lang_info → Z) (T c d : Z) (m : gmap string lang_info) :
  0 ≤ T → 0 ≤ c → 0 ≤ d →
  (∀ k v, m !! k = Some v → 2 * Z.abs (f v * T - 10000 * g v) * c ≤ T * d) →
  2 * Z.abs (map_fold (λ _ v acc, f v + acc) 0 m * T
             - 10000 * map_fold (λ _ v acc, g v + acc) 0 m) * c
    ≤ Z.of_nat (size m) * (T * d).
Proof.
  intros HT Hc Hd. induction m as [|k v m Hk IH] using map_ind; intros Hall.
  - rewrite !map_fold_empty, map_size_empty. lia.
  - rewrite !map_fold_insert_L by (done || intros; lia).
    rewrite map_size_insert_None by done.
    pose proof (Hall k v (lookup_insert_eq _ _ _)) as Hv.
    assert (∀ k' v', m !! k' = Some v' →
              2 * Z.abs (f v' * T - 10000 * g v') * c ≤ T * d) as Hrest.
    { intros k' v' Hin. apply (Hall k'). rewrite lookup_insert_ne; [done|congruence]. }
    specialize (IH Hrest).
    set (F := map_fold (λ _ v acc, f v + acc) 0 m) in *.
    set (G := map_fold (λ _ v acc, g v + acc) 0 m) in *.
    replace ((f v + F) * T - 10000 * (g v + G))
      with ((f v * T - 10000 * g v) + (F * T - 10000 * G)) by lia.
    pose proof (Z.abs_triangle (f v * T - 10000 * g v) (F * T - 10000 * G)) as Htri.
    assert (Z.abs (f v * T - 10000 * g v + (F * T - 10000 * G)) * c
            ≤ (Z.abs (f v * T - 10000 * g v) + Z.abs (F * T - 10000 * G)) * c)
      by (apply Z.mul_le_mono_nonneg_r; lia).
    lia.
Qed.

Lemma sum_sizes_nonneg (m : gmap string lang_info) :
  (∀ k v, m !! k = Some v → 0 ≤ default 0 (info_size v)) → 0 ≤ sum_sizes m.
Proof.
  unfold sum_sizes. induction m as [|k v m Hk IH] using map_ind; intros Hall.
  - by rewrite map_fold_empty.
  - rewrite map_fold_insert_L by (done || intros; lia).
    pose proof (Hall k v (lookup_insert_eq _ _ _)).
    assert (0 ≤ map_fold (λ _ item acc, default 0 (info_size item) + acc) 0 m); [|lia].
    apply IH. intros k' v' Hin. apply (Hall k'). rewrite lookup_insert_ne; [done|congruence].
Qed.

Lemma size_le_sum (m : gmap string lang_info) k v :
  (∀ k v, m !! k = Some v → 0 ≤ default 0 (info_size v)) →
  m !! k = Some v → default 0 (info_size v) ≤ sum_sizes m.
Proof.
  intros Hall Hin. rewrite (sum_sizes_delete m k v Hin).
  assert (0 ≤ sum_sizes (delete k m)); [|lia].
  apply sum_sizes_nonneg. intros k' v' Hin'.
  apply lookup_delete_Some in Hin' as [_ Hin']. by eapply Hall.
Qed.

(** ** The monadic code, unfolded *)

Lemma collect_unfold E self repo_dir w :
  _collect_language_stats E self repo_dir w =
    match _run_linguist_breakdown E self repo_dir w with
    | (Ok (JObject items), w1) =>
        if bool_decide (items = ∅) then (Raise (RuntimeError EMPTY_MESSAGE), w1)
        else (stats_loop (w_fs w1) repo_dir (total_bytes items) (map_to_list items) ∅, w1)
    | (Ok (JOther false), w1) => (Raise (RuntimeError EMPTY_MESSAGE), w1)
    | (Ok (JOther true), w1) => (Raise AttributeError, w1)
    | (Raise e, w1) => (Raise e, w1)
    end.
Proof.
  unfold _collect_language_stats. unfold mbind at 1. unfold M_bind.
  destruct (_run_linguist_breakdown E self repo_dir w) as [[[items|[]]|e] w1]; try done.
  by case_bool_decide.
Qed.

Lemma run_unfold E cmd cwd w :
  run E cmd cwd w =
    let '(r, fs') := subprocess_run E (w_fs w) cmd cwd in
    (r, World fs' (w_trace w ++ [EvRun cmd cwd])).
Proof. unfold run, mbind, M_bind, emit. cbn. by destruct (subprocess_run E _ _ _). Qed.

Lemma execute_local E self args repo_dir w :
  use_docker self = false →
  _execute_linguist E self args repo_dir w =
    let cmd := linguist_cmd self :: args in
    let cwd := Some (path_str repo_dir) in
    match subprocess_run E (w_fs w) cmd cwd with
    | (Ok cp, fs') =>
        (if bool_decide (returncode cp ≠ 0) then Raise (RuntimeError (failure_message cp))
         else Ok (stdout cp), World fs' (w_trace w ++ [EvRun cmd cwd]))
    | (Raise e, fs') => (Raise e, World fs' (w_trace w ++ [EvRun cmd cwd]))
    end.
Proof.
  intros Hd. unfold _execute_linguist. rewrite Hd.
  unfold mbind at 1. unfold M_bind. unfold ret at 1.
  unfold mbind at 1. unfold M_bind. rewrite run_unfold. cbn zeta.
  destruct (subprocess_run E (w_fs w) _ _) as [[cp|e] fs']; [|done].
  by case_bool_decide.
Qed.

Lemma execute_docker E self args repo_dir w uid gid :
  use_docker self = true →
  os_stat E (w_fs w) repo_dir = Ok (uid, gid) →
  _execute_linguist E self args repo_dir w =
    let cmd := docker_command self uid gid args repo_dir in
    match subprocess_run E (w_fs w) cmd None with
    | (Ok cp, fs') =>
        (if bool_decide (returncode cp ≠ 0) then Raise (RuntimeError (failure_message cp))
         else Ok (stdout cp), World fs' (w_trace w ++ [EvRun cmd None]))
    | (Raise e, fs') => (Raise e, World fs' (w_trace w ++ [EvRun cmd None]))
    end.
Proof.
  intros Hd Hstat. unfold _execute_linguist. rewrite Hd.
  unfold mbind at 1. unfold M_bind.
  unfold mbind at 1. unfold M_bind. unfold query at 1. rewrite Hstat.
  unfold ret at 1.
  unfold mbind at 1. unfold M_bind. rewrite run_unfold. cbn zeta.
  fold (docker_command self uid gid args repo_dir).
  destruct (subprocess_run E (w_fs w) _ _) as [[cp|e] fs']; [|done].
  by case_bool_decide.
Qed.

Lemma breakdown_unfold E self repo_dir w :
  _run_linguist_breakdown E self repo_dir w =
    match _execute_linguist E self ["--breakdown"; "--json"; "."] repo_dir w with
    | (Ok output, w1) => (json_loads E output, w1)
    | (Raise e, w1) => (Raise e, w1)
    end.
Proof.
  unfold _run_linguist_breakdown. unfold mbind at 1. unfold M_bind.
  by destruct (_execute_linguist E self _ repo_dir w) as [[output|e] w1].
Qed.

Lemma analyze_unfold E self zip_path w :
  analyze_zip E self zip_path w =
    if Fs.is_file (w_fs w) zip_path then
      match mkdtemp E w with
      | (Ok tmpdir, w1) =>
          let '(r, w2) := with_block E self zip_path tmpdir w1 in
          (r, World (Fs.rmtree (w_fs w2) tmpdir) (w_trace w2 ++ [EvRmtree tmpdir]))
      | (Raise e, w1) => (Raise e, w1)
      end
    else (Raise (FileNotFoundError ("File not found: " +:+ path_str zip_path)), w).
Proof.
  unfold analyze_zip. unfold mbind at 1. unfold M_bind. unfold query at 1.
  destruct (Fs.is_file (w_fs w) zip_path); [|done]. cbn [negb].
  unfold with_TemporaryDirectory. destruct (mkdtemp E w) as [[tmpdir|e] w1]; [|done].
  reflexivity.
Qed.

Lemma with_block_reaches_collect E self zip_path tmpdir w1 w2 root w3 :
  extractall E zip_path tmpdir w1 = (Ok tt, w2) →
  _detect_project_root (w_fs w2) tmpdir = Ok root →
  _init_git_repo E root w2 = (Ok tt, w3) →
  with_block E self zip_path tmpdir w1 = _collect_language_stats E self root w3.
Proof.
  intros Hext Hroot Hgit. unfold with_block.
  unfold mbind at 1. unfold M_bind. rewrite Hext.
  unfold mbind at 1. unfold M_bind. unfold query at 1. rewrite Hroot.
  unfold mbind at 1. unfold M_bind. by rewrite Hgit.
Qed.

(** ** Order and exactness of the percentage *)

Module F64Order.

Import F64 F64Facts.

Lemma shift_of_mono a a' b : 0 ≤ a ≤ a' → 0 < b → shift_of a b ≤ shift_of a' b.
Proof.
  intros Ha Hb. unfold shift_of.
  assert (a / b ≤ a' / b) by (apply Z.div_le_mono; lia).
  pose proof (Z.log2_le_mono (a / b) (a' / b) ltac:(done)). lia.
Qed.

(** Rounding to nearest keeps the order. *)
Lemma round_mag_mono a a' b : 0 ≤ a ≤ a' → 0 < b → round_mag a b ≤ round_mag a' b.
Proof.
  intros Ha Hb. pose proof (shift_of_mono a a' b Ha Hb) as Hss.
  destruct (Z.eq_dec (shift_of a b) (shift_of a' b)) as [Heq|Hne].
  - unfold round_mag. rewrite <- Heq.
    pose proof (shift_of_nonneg a b).
    assert (0 < 2 ^ shift_of a b) by (apply Z.pow_pos_nonneg; lia).
    apply Z.mul_le_mono_nonneg_r; [lia|]. apply rne_div_mono; lia.
  - pose proof (shift_of_cases a b) as Hs. pose proof (shift_of_cases a' b) as Hs'.
    cbn zeta in Hs, Hs'. pose proof (shift_of_nonneg a b) as Hs0.
    set (s := shift_of a b) in *. set (s' := shift_of a' b) in *.
    assert (a / b < 2 ^ (53 + s)) as Hup.
    { destruct Hs as [[-> ?]|[_ [_ ?]]]; [by rewrite Z.add_0_r|done]. }
    assert (2 ^ (53 + s) ≤ a' / b) as Hlo.
    { destruct Hs' as [[? _]|[_ [Hlo _]]]; [lia|].
      etrans; [|exact Hlo]. apply Z.pow_le_mono_r; lia. }
    assert (representable (2 ^ (53 + s))) as Hrep.
    { exists 1, (53 + s). split_and!; lia. }
    assert (0 < 2 ^ (53 + s)) by (apply Z.pow_pos_nonneg; lia).
    etrans; [apply (round_mag_le a b (2 ^ (53 + s)) Hrep Hb)|
             apply (round_mag_ge a' b (2 ^ (53 + s)) Hrep ltac:(lia) Hb)].
    + pose proof (Z.mod_pos_bound a b Hb). pose proof (Z.div_mod a b ltac:(lia)).
      assert (b * (a / b + 1) ≤ b * 2 ^ (53 + s)) by (apply Z.mul_le_mono_nonneg_l; lia).
      lia.
    + pose proof (Z.mul_div_le a' b Hb).
      assert (b * 2 ^ (53 + s) ≤ b * (a' / b)) by (apply Z.mul_le_mono_nonneg_l; lia).
      lia.
Qed.

Lemma fround_nonneg a b : 0 ≤ a → 0 < b → float_nonneg (fround false a b).
Proof.
  intros Ha Hb. unfold fround. case_match; [|done]. by apply round_mag_nonneg.
Qed.

Lemma fround_mono a a' b :
  0 ≤ a ≤ a' → 0 < b → fle (fround false a b) (fround false a' b) = true.
Proof.
  intros Ha Hb. pose proof (round_mag_mono a a' b Ha Hb) as Hm. unfold fround.
  destruct (round_mag a' b <? LIMIT) eqn:Hlt'.
  - apply Z.ltb_lt in Hlt'. replace (round_mag a b <? LIMIT) with true by lia.
    apply Z.leb_le. cbn [signed]. lia.
  - by destruct (round_mag a b <? LIMIT).
Qed.

Lemma fle_fin_inv x m' : float_nonneg x → fle x (Fin false m') = true → ∃ m, x = Fin false m ∧ 0 ≤ m ≤ m'.
Proof.
  destruct x as [|[]|[] m]; try done. unfold fle, signed, float_nonneg.
  intros Hm Hle%Z.leb_le. exists m. split; [done|lia].
Qed.

Lemma fmul_100_mono x x' :
  float_nonneg x → float_nonneg x' → fle x x' = true →
  float_nonneg (fmul x f100) ∧ float_nonneg (fmul x' f100) ∧ fle (fmul x f100) (fmul x' f100) = true.
Proof.
  pose proof SCALE_pos as HS.
  intros Hx Hx' Hle.
  assert (∀ z, float_nonneg z → float_nonneg (fmul z f100)) as Hnn.
  { intros [|[]|[] m]; try done.
    intros Hm. cbn [float_nonneg] in Hm. unfold fmul, f100. cbn [xorb].
    apply fround_nonneg; [|done]. apply Z.mul_nonneg_nonneg; lia. }
  split_and!; [by apply Hnn..|].
  destruct x' as [|[]|[] m']; try done.
  - (* x' = +inf *)
    specialize (Hnn x Hx). unfold fmul at 2. unfold f100 at 2.
    replace (100 * SCALE =? 0) with false by lia. cbn [xorb].
    by destruct (fmul x f100) as [|[]|[] ?].
  - apply fle_fin_inv in Hle as (m & -> & Hm); [|done].
    unfold fmul, f100. cbn [xorb]. apply fround_mono; [|done].
    split; [apply Z.mul_nonneg_nonneg; lia|].
    apply Z.mul_le_mono_nonneg_r; lia.
Qed.

Lemma fdiv_mono x x' my q q' :
  float_nonneg x → float_nonneg x' → fle x x' = true → 0 < my →
  fdiv x (Fin false my) = Ok q → fdiv x' (Fin false my) = Ok q' →
  float_nonneg q ∧ float_nonneg q' ∧ fle q q' = true.
Proof.
  pose proof SCALE_pos as HS.
  intros Hx Hx' Hle Hmy Hq Hq'.
  assert (∀ z r, float_nonneg z → fdiv z (Fin false my) = Ok r → float_nonneg r) as Hnn.
  { intros [|[]|[] m] r; try done.
    - unfold fdiv. destruct my; try done. by intros _ [= <-].
    - intros Hm. cbn [float_nonneg] in Hm. unfold fdiv. destruct my eqn:Hmy'; try done. intros [= <-].
      cbn [xorb]. apply fround_nonneg; [|done]. apply Z.mul_nonneg_nonneg; lia. }
  split_and!; [exact (Hnn x q Hx Hq)|exact (Hnn x' q' Hx' Hq')|].
  destruct x' as [|[]|[] m']; try done.
  - pose proof (Hnn x q Hx Hq) as Hqn. revert Hq'. unfold fdiv.
    destruct my; try done. intros [= <-]. cbn [xorb].
    by destruct q as [|[]|[] ?].
  - apply fle_fin_inv in Hle as (m & -> & Hm); [|done].
    revert Hq Hq'. unfold fdiv. destruct my eqn:Hmy'; try done.
    intros [= <-] [= <-]. cbn [xorb]. apply fround_mono; [|done].
    split; [apply Z.mul_nonneg_nonneg; lia|].
    apply Z.mul_le_mono_nonneg_r; lia.
Qed.

Lemma hundredths_mono m m' : 0 ≤ m ≤ m' → 0 ≤ hundredths m ≤ hundredths m'.
Proof.
  intros Hm. pose proof SCALE_pos. unfold hundredths. split.
  - apply rne_div_ge; lia.
  - apply rne_div_mono; lia.
Qed.

Lemma round2_mono q q' p p' :
  float_nonneg q → float_nonneg q' → fle q q' = true →
  round2 q = Ok p → round2 q' = Ok p' →
  float_nonneg p ∧ float_nonneg p' ∧ fle p p' = true.
Proof.
  pose proof SCALE_pos as HS.
  intros Hq Hq' Hle Hp Hp'.
  assert (∀ z r, float_nonneg z → round2 z = Ok r → float_nonneg r) as Hnn.
  { intros [|[]|[] m] r; try done.
    - by intros _ [= <-].
    - intros Hm. cbn [float_nonneg] in Hm. cbn [round2].
      pose proof (fround_nonneg (hundredths m * SCALE) 100) as Hn.
      unfold of_hundredths.
      pose proof (hundredths_mono m m ltac:(lia)) as [? _].
      destruct (fround false (hundredths m * SCALE) 100) as [|[]|[] ?] eqn:Hf; try done;
        intros [= <-]; (apply Hn; [|lia]); apply Z.mul_nonneg_nonneg; lia. }
  split_and!; [exact (Hnn q p Hq Hp)|exact (Hnn q' p' Hq' Hp')|].
  destruct q' as [|[]|[] m']; try done.
  - pose proof (Hnn q p Hq Hp) as Hpn. injection Hp' as <-.
    by destruct p as [|[]|[] ?].
  - apply fle_fin_inv in Hle as (m & -> & Hm); [|done].
    revert Hp Hp'. cbn [round2]. unfold of_hundredths.
    pose proof (hundredths_mono m m' Hm) as HK.
    pose proof (fround_mono (hundredths m * SCALE) (hundredths m' * SCALE) 100) as Hmono.
    destruct (fround false (hundredths m * SCALE) 100) as [|?|? ?] eqn:Hf; try done;
      destruct (fround false (hundredths m' * SCALE) 100) as [|?|? ?] eqn:Hf'; try done.
    all: intros [= <-] [= <-]; apply Hmono; [|lia].
    all: split; [apply Z.mul_nonneg_nonneg; lia|apply Z.mul_le_mono_nonneg_r; lia].
Qed.

Lemma float_of_int_mono s s' x x' :
  0 ≤ s ≤ s' → float_of_int s = Ok x → float_of_int s' = Ok x' →
  float_nonneg x ∧ float_nonneg x' ∧ fle x x' = true.
Proof.
  pose proof SCALE_pos as HS.
  intros Hs. unfold float_of_int.
  replace (s <? 0) with false by lia. replace (s' <? 0) with false by lia.
  rewrite !Z.abs_eq by lia.
  pose proof (fround_mono (s * SCALE) (s' * SCALE) 1) as Hmono.
  pose proof (fround_nonneg (s * SCALE) 1) as Hn.
  pose proof (fround_nonneg (s' * SCALE) 1) as Hn'.
  destruct (fround false (s * SCALE) 1) as [|?|? ?] eqn:Hf; try done;
    destruct (fround false (s' * SCALE) 1) as [|?|? ?] eqn:Hf'; try done.
  all: intros [= <-] [= <-].
  all: assert (0 ≤ s * SCALE ≤ s' * SCALE)
    by (split; [apply Z.mul_nonneg_nonneg; lia|apply Z.mul_le_mono_nonneg_r; lia]).
  all: split_and!; [apply Hn; lia|apply Hn'; lia|apply Hmono; lia].
Qed.

(** The percentage grows with the size. *)
Lemma percent_of_mono s s' T p p' :
  0 ≤ s ≤ s' → 0 < T →
  percent_of s T = Ok p → percent_of s' T = Ok p' → fle p p' = true.
Proof.
  intros Hs HT. unfold percent_of.
  destruct (float_of_int s) as [x|] eqn:Hx; [|done].
  destruct (float_of_int s') as [x'|] eqn:Hx'; [|done].
  destruct (float_of_int T) as [y|] eqn:Hy; [|done].
  cbn [mbind result_bind].
  apply float_of_int_inv in Hy as (my & -> & Hmy); [|lia].
  replace (T <? 0) with false by lia.
  destruct (float_of_int_mono s s' x x' Hs Hx Hx') as (Hxn & Hxn' & Hxle).
  destruct (fmul_100_mono x x' Hxn Hxn' Hxle) as (Hmn & Hmn' & Hmle).
  destruct (fdiv (fmul x f100) (Fin false my)) as [q|] eqn:Hq; [|done].
  destruct (fdiv (fmul x' f100) (Fin false my)) as [q'|] eqn:Hq'; [|done].
  cbn [mbind result_bind].
  destruct (fdiv_mono _ _ my q q' Hmn Hmn' Hmle Hmy Hq Hq') as (Hqn & Hqn' & Hqle).
  intros Hp Hp'.
  by destruct (round2_mono q q' p p' Hqn Hqn' Hqle Hp Hp') as (_ & _ & ?).
Qed.

End F64Order.

Module F64Exact.

Import F64 F64Facts.

(** When the exact percentage is a whole number [j] of hundredths, the
    result is the double nearest to [j / 100]. *)
Lemma percent_of_exact s T j :
  0 ≤ s ≤ T → 0 < T < 2 ^ 1000 → 10000 * s = j * T →
  percent_of s T = Ok (of_hundredths false j).
Proof.
  intros Hs HT Hj.
  destruct (percent_of_accurate s T Hs HT) as (p & -> & _ & _ & Hof & Hacc).
  rewrite <- Hof. do 2 f_equal.
  rewrite Hj in Hacc.
  replace (hundredths p * T - j * T) with ((hundredths p - j) * T) in Hacc by lia.
  rewrite Z.abs_mul, (Z.abs_eq T) in Hacc by lia.
  destruct (Z.eq_dec (hundredths p) j) as [|Hne]; [done|exfalso].
  assert (1 * T ≤ Z.abs (hundredths p - j) * T) by (apply Z.mul_le_mono_nonneg_r; lia).
  lia.
Qed.

Lemma of_hundredths_100 : of_hundredths false 10000 = f100.
Proof.
  unfold of_hundredths, f100.
  replace (10000 * SCALE) with (100 * SCALE * 100) by lia.
  by apply fround_exact.
Qed.

(** An int of [2^1024] or more in absolute value does not convert. *)
Lemma float_of_int_overflow n :
  2 ^ 1024 ≤ Z.abs n → float_of_int n = Raise OverflowError.
Proof.
  intros Hn. pose proof SCALE_pos as HS. unfold float_of_int, fround.
  assert (LIMIT ≤ round_mag (Z.abs n * SCALE) 1) as Hge.
  { apply round_mag_ge; [by exists 1, 2098| |done|].
    - apply Z.mul_nonneg_nonneg; lia.
    - rewrite LIMIT_split, Z.mul_1_r. apply Z.mul_le_mono_nonneg_r; lia. }
  by replace (_ <? LIMIT) with false by lia.
Qed.

Lemma percent_of_overflow s T :
  2 ^ 1024 ≤ Z.abs s ∨ 2 ^ 1024 ≤ Z.abs T → percent_of s T = Raise OverflowError.
Proof.
  intros [Hs|HT]; unfold percent_of.
  - by rewrite (float_of_int_overflow s Hs).
  - rewrite (float_of_int_overflow T HT).
    destruct (float_of_int s) as [x|e] eqn:Hx; [done|].
    unfold float_of_int in Hx. destruct (fround _ _ _); [done| |done].
    by injection Hx as <-.
Qed.

End F64Exact.

Lemma percent_of_not_nan s T p : percent_of s T = Ok p → p ≠ F64.NaN.
Proof.
  unfold percent_of, F64.float_of_int.
  assert (∀ neg a b, F64.fround neg a b ≠ F64.NaN) as Hfr.
  { intros neg a b. unfold F64.fround. by case_match. }
  destruct (F64.fround (s <? 0) _ 1) as [|?|sx mx] eqn:Hx; [by apply Hfr in Hx|done|].
  destruct (F64.fround (T <? 0) _ 1) as [|?|sy my] eqn:Hy; [by apply Hfr in Hy|done|].
  cbn [mbind result_bind]. unfold F64.fmul, F64.f100.
  pose proof (Hfr (xorb sx false) (mx * (100 * F64.SCALE)) F64.SCALE) as Hm.
  destruct (F64.fround (xorb sx false) _ _) as [|sm|sm mm]; [done| |].
  - unfold F64.fdiv. destruct my; [done|..]; cbn [mbind result_bind F64.round2];
      by intros [= <-].
  - unfold F64.fdiv.
    pose proof (Hfr (xorb sm sy) (mm * F64.SCALE) my) as Hq.
    destruct my eqn:Hmy; [done|..]; cbn [mbind result_bind].
    all: destruct (F64.fround (xorb sm sy) _ _) as [|sq|sq mq]; [done|by intros [= <-]|].
    all: cbn [F64.round2]; unfold F64.of_hundredths.
    all: pose proof (Hfr sq (F64.hundredths mq * F64.SCALE) 100) as Hr.
    all: destruct (F64.fround sq _ 100) as [|?|? ?]; [done..|by intros [= <-]].
Qed.

Lemma float_of_int_errors n e : F64.float_of_int n = Raise e → e = OverflowError.
Proof.
  unfold F64.float_of_int. destruct (F64.fround _ _ _); [done| |done].
  by intros [= <-].
Qed.

Lemma round2_errors x e : F64.round2 x = Raise e → e = OverflowError.
Proof.
  destruct x as [|s|s m]; [done..|]. cbn [F64.round2].
  destruct (F64.of_hundredths _ _); [done| |done]. by intros [= <-].
Qed.

(** With a total that is not zero, the only exception of the percentage is
    [OverflowError]: the guard [or 1] keeps [ZeroDivisionError] out. *)
Lemma percent_of_errors s T e :
  T ≠ 0 → percent_of s T = Raise e → e = OverflowError.
Proof.
  intros HT. unfold percent_of.
  destruct (F64.float_of_int s) as [x|e1] eqn:Hx;
    [|intros [= <-]; by apply float_of_int_errors in Hx].
  cbn [mbind result_bind].
  destruct (F64.float_of_int T) as [y|e2] eqn:Hy;
    [|intros [= <-]; by apply float_of_int_errors in Hy].
  cbn [mbind result_bind].
  apply F64Facts.float_of_int_inv in Hy as (m & -> & Hm); [|done].
  destruct (F64.fdiv _ _) as [q|e3] eqn:Hq.
  - cbn [mbind result_bind]. apply round2_errors.
  - exfalso. revert Hq. unfold F64.fdiv.
    destruct (F64.fmul x F64.f100) as [|?|? ?]; destruct m; done || lia.
Qed.

(** ** Line totals *)

Lemma resolve_errors fs p e :
  Fs.resolve fs p = Raise e → e = FileNotFoundError "" ∨ e = NotADirectoryError.
Proof.
  revert fs. induction p as [|x p IH]; intros fs; [done|]. cbn [Fs.resolve].
  destruct fs as [r data|es|]; [intros [= <-]; by right| |intros [= <-]; by right].
  destruct (es !! x) as [c|]; [apply IH|intros [= <-]; by left].
Qed.

Lemma count_newlines_bounds (data : bytes) :
  0 ≤ count_newlines data ≤ Z.of_nat (length data).
Proof.
  unfold count_newlines. split; [lia|].
  apply inj_le, length_filter.
Qed.

Lemma count_lines_openable fs p :
  unopenable fs p = false → _count_lines fs p = Ok (lines_of fs p).
Proof.
  unfold unopenable, _count_lines, lines_of, Fs.open_rb.
  destruct (Fs.resolve fs p) as [[[] data|es|]|e] eqn:Hres; cbn [mbind result_bind]; try done.
  - intros _. by rewrite read_loop_count by apply CHUNK_pos.
  - apply resolve_errors in Hres as [->| ->]; done.
Qed.

Lemma count_lines_unopenable fs p :
  unopenable fs p = true →
  ∃ e, _count_lines fs p = Raise e ∧ (e = NotADirectoryError ∨ e = OSError).
Proof.
  unfold unopenable, _count_lines, Fs.open_rb.
  destruct (Fs.resolve fs p) as [[[] data|es|]|[]] eqn:Hres; cbn [mbind result_bind];
    try done; intros _; eexists; split; try done; auto.
Qed.

Lemma lines_of_nonneg fs p : 0 ≤ lines_of fs p.
Proof.
  unfold lines_of. destruct (Fs.resolve fs p) as [[[] data|es|]|e]; try done.
  apply count_newlines_bounds.
Qed.

Lemma sum_lines_openable fs repo_dir files :
  Forall (λ f, unopenable fs (path_join repo_dir f) = false) files →
  sum_lines fs repo_dir files =
    Ok (foldr Z.add 0 ((λ f, lines_of fs (path_join repo_dir f)) <$> files)).
Proof.
  induction 1 as [|f files Hf _ IH]; [done|].
  cbn [sum_lines fmap list_fmap foldr].
  rewrite (count_lines_openable _ _ Hf), IH. done.
Qed.

Lemma sum_lines_unopenable fs repo_dir files :
  Exists (λ f, unopenable fs (path_join repo_dir f) = true) files →
  ∃ e, sum_lines fs repo_dir files = Raise e ∧ (e = NotADirectoryError ∨ e = OSError).
Proof.
  induction files as [|f files IH]; intros Hex; [by apply Exists_nil in Hex|].
  cbn [sum_lines].
  destruct (unopenable fs (path_join repo_dir f)) eqn:Hf.
  - destruct (count_lines_unopenable _ _ Hf) as (e & -> & He). by exists e.
  - rewrite (count_lines_openable _ _ Hf). cbn [mbind result_bind].
    apply Exists_cons in Hex as [Hex|Hex]; [congruence|].
    destruct (IH Hex) as (e & -> & He). by exists e.
Qed.

Lemma countable_openable fs p : countable fs p = true → unopenable fs p = false.
Proof.
  unfold countable, unopenable.
  by destruct (Fs.resolve fs p) as [[r data|es|]|[]].
Qed.

Lemma sum_lines_raise fs repo_dir files e :
  sum_lines fs repo_dir files = Raise e →
  ∃ f, f ∈ files ∧ _count_lines fs (path_join repo_dir f) = Raise e.
Proof.
  induction files as [|f files IH]; [done|]. cbn [sum_lines].
  destruct (_count_lines fs (path_join repo_dir f)) as [n|e1] eqn:Hf.
  - cbn [mbind result_bind].
    destruct (sum_lines fs repo_dir files) as [m|e2]; [done|].
    intros [= <-]. destruct (IH eq_refl) as (f' & Hin & Hf').
    exists f'. split; [by right|done].
  - intros [= <-]. exists f. split; [by left|done].
Qed.

Lemma sum_lines_nonneg fs repo_dir files n :
  sum_lines fs repo_dir files = Ok n → 0 ≤ n.
Proof.
  revert n. induction files as [|f files IH]; intros n; [by intros [= <-]|].
  cbn [sum_lines].
  destruct (unopenable fs (path_join repo_dir f)) eqn:Hf.
  - by destruct (count_lines_unopenable _ _ Hf) as (e & -> & He).
  - rewrite (count_lines_openable _ _ Hf). cbn [mbind result_bind].
    destruct (sum_lines fs repo_dir files) as [m|]; [|done].
    cbn [mbind result_bind]. intros [= <-].
    pose proof (lines_of_nonneg fs (path_join repo_dir f)). specialize (IH m eq_refl). lia.
Qed.

Lemma sum_lines_errors fs repo_dir files e :
  sum_lines fs repo_dir files = Raise e → e = NotADirectoryError ∨ e = OSError.
Proof.
  intros Hsum.
  destruct (decide (Exists (λ f, unopenable fs (path_join repo_dir f) = true) files))
    as [Hex|Hno].
  - destruct (sum_lines_unopenable _ _ _ Hex) as (e' & He' & Hcase). congruence.
  - apply not_Exists_Forall in Hno; [|intros f; apply _].
    rewrite sum_lines_openable in Hsum; [done|].
    eapply Forall_impl; [done|]. cbn. intros f Hf. by destruct (unopenable _ _).
Qed.

(** ** Outcomes of the aggregation *)

Lemma language_stat_errors fs repo_dir total info e :
  total ≠ 0 → language_stat fs repo_dir total info = Raise e →
  e = OverflowError ∨ e = NotADirectoryError ∨ e = OSError.
Proof.
  intros HT. unfold language_stat.
  destruct (sum_lines _ _ _) as [n|e1] eqn:Hn.
  - cbn [mbind result_bind].
    destruct (percent_of _ _) as [p|e2] eqn:Hp; [done|].
    intros [= <-]. left. by apply (percent_of_errors _ _ _ HT Hp).
  - intros [= <-]. right. by apply sum_lines_errors in Hn.
Qed.

Lemma stats_loop_errors fs repo_dir total items acc e :
  stats_loop fs repo_dir total items acc = Raise e →
  ∃ kv, kv ∈ items ∧ language_stat fs repo_dir total kv.2 = Raise e.
Proof.
  revert acc. induction items as [|[language info] items IH]; intros acc; [done|].
  cbn [stats_loop].
  destruct (language_stat fs repo_dir total info) as [st|e1] eqn:Hst.
  - cbn [mbind result_bind]. intros Hloop. apply IH in Hloop as (kv & Hin & Hkv).
    exists kv. split; [by right|done].
  - intros [= <-]. exists (language, info). split; [by left|done].
Qed.

Lemma language_stat_returns fs repo_dir total info :
  0 ≤ default 0 (info_size info) ≤ total → 0 < total < 2 ^ 1000 →
  Forall (λ f, unopenable fs (path_join repo_dir f) = false) (default [] (info_files info)) →
  ∃ p, language_stat fs repo_dir total info =
         Ok {| percent := F64.Fin false p;
               lines := foldr Z.add 0 ((λ f, lines_of fs (path_join repo_dir f))
                                         <$> default [] (info_files info)) |}.
Proof.
  intros Hs HT Hfiles. unfold language_stat.
  rewrite (sum_lines_openable _ _ _ Hfiles). cbn [mbind result_bind].
  destruct (F64Facts.percent_of_accurate _ _ Hs HT) as (p & -> & _). by exists p.
Qed.

Lemma total_bytes_cases (items : gmap string lang_info) :
  (∀ language info, items !! language = Some info → 0 ≤ default 0 (info_size info)) →
  0 < total_bytes items ∧
  (total_bytes items = sum_sizes items ∨ (sum_sizes items = 0 ∧ total_bytes items = 1)) ∧
  ∀ language info, items !! language = Some info →
    default 0 (info_size info) ≤ total_bytes items.
Proof.
  intros Hnonneg. pose proof (sum_sizes_nonneg items Hnonneg) as Hsum.
  unfold total_bytes. case_bool_decide as Hz.
  - split_and!; [lia|by right|]. intros language info Hin.
    pose proof (size_le_sum items language info Hnonneg Hin). lia.
  - split_and!; [lia|by left|]. intros language info Hin.
    apply (size_le_sum items language info Hnonneg Hin).
Qed.

Lemma sum_sizes_list (m : gmap string lang_info) :
  sum_sizes m = foldr Z.add 0 (reported_sizes m).
Proof.
  unfold sum_sizes, reported_sizes. rewrite map_fold_foldr, foldr_fmap.
  apply foldr_ext; [|done..]. by intros [k v] a.
Qed.

Lemma sum_sizes_zero (m : gmap string lang_info) :
  (∀ k v, m !! k = Some v → default 0 (info_size v) = 0) → sum_sizes m = 0.
Proof.
  unfold sum_sizes. induction m as [|k v m Hk IH] using map_ind; intros Hall.
  - by rewrite map_fold_empty.
  - rewrite map_fold_insert_L by (done || intros; lia).
    rewrite (Hall k v (lookup_insert_eq _ _ _)), IH; [done|].
    intros k' v' Hin. apply (Hall k'). rewrite lookup_insert_ne; [done|congruence].
Qed.

(** What a returned mapping holds for each entry of the report. *)
Lemma collect_entry E self repo_dir w items w1 stats w' language info :
  _run_linguist_breakdown E self repo_dir w = (Ok (JObject items), w1) →
  _collect_language_stats E self repo_dir w = (Ok stats, w') →
  items !! language = Some info →
  ∃ st n, stats !! language = Some st ∧
    sum_lines (w_fs w1) repo_dir (default [] (info_files info)) = Ok n ∧
    percent_of (default 0 (info_size info)) (total_bytes items) = Ok (percent st) ∧
    lines st = n.
Proof.
  intros Hrun Hcollect Hin. rewrite collect_unfold, Hrun in Hcollect.
  case_bool_decide as Hne; [done|]. injection Hcollect as Hloop <-.
  apply stats_loop_fmap in Hloop as [-> Hall].
  specialize (Hall language info Hin).
  exists (stat_of (w_fs w1) repo_dir (total_bytes items) info).
  rewrite lookup_fmap, Hin. cbn [fmap option_fmap option_map].
  revert Hall. generalize (stat_of (w_fs w1) repo_dir (total_bytes items) info).
  intros st. unfold language_stat.
  destruct (sum_lines _ _ _) as [n|]; [|done]. cbn [mbind result_bind].
  destruct (percent_of _ _) as [p|]; [|done]. cbn [mbind result_bind].
  intros [= <-]. by exists n.
Qed.

Lemma collect_lookup_inv E self repo_dir w items w1 stats w' language st :
  _run_linguist_breakdown E self repo_dir w = (Ok (JObject items), w1) →
  _collect_language_stats E self repo_dir w = (Ok stats, w') →
  stats !! language = Some st → ∃ info, items !! language = Some info.
Proof.
  intros Hrun Hcollect Hst. rewrite collect_unfold, Hrun in Hcollect.
  case_bool_decide as Hne; [done|]. injection Hcollect as Hloop <-.
  apply stats_loop_fmap in Hloop as [-> _]. rewrite lookup_fmap in Hst.
  destruct (items !! language) as [info|]; [by eexists|done].
Qed.

(** ** The effects of each step *)

Lemma run_git_unfold E repo_path cmd w :
  run_git E repo_path cmd w =
    match subprocess_run E (w_fs w) cmd (Some (path_str repo_path)) with
    | (Ok cp, fs') =>
        (if bool_decide (returncode cp ≠ 0) then Raise (CalledProcessError (returncode cp))
         else Ok tt,
         World fs' (w_trace w ++ [EvRun cmd (Some (path_str repo_path))]))
    | (Raise e, fs') =>
        (Raise e, World fs' (w_trace w ++ [EvRun cmd (Some (path_str repo_path))]))
    end.
Proof.
  unfold run_git. unfold mbind at 1. unfold M_bind. rewrite run_unfold.
  destruct (subprocess_run E (w_fs w) cmd _) as [[cp|e] fs']; [|done].
  by case_bool_decide.
Qed.

Lemma run_git_trace E repo_path cmd w r w' :
  run_git E repo_path cmd w = (r, w') →
  w_trace w' = w_trace w ++ [EvRun cmd (Some (path_str repo_path))].
Proof.
  rewrite run_git_unfold.
  destruct (subprocess_run E (w_fs w) cmd _) as [[cp|e] fs']; by intros [= _ <-].
Qed.

Lemma init_git_repo_trace E repo_path w r w' :
  _init_git_repo E repo_path w = (r, w') →
  ∃ k, (1 ≤ k ≤ 3)%nat ∧
       w_trace w' = w_trace w ++ take k (git_events (path_str repo_path)) ∧
       (r = Ok tt → k = 3%nat).
Proof.
  unfold _init_git_repo.
  unfold mbind at 1. unfold M_bind.
  destruct (run_git E repo_path ["git"; "init"; "-q"] w) as [[[]|e1] w1] eqn:H1.
  2:{ intros [= <- <-]. exists 1%nat. apply run_git_trace in H1.
      split_and!; [lia..|done|done]. }
  unfold mbind at 1. unfold M_bind.
  destruct (run_git E repo_path ["git"; "add"; "-A"] w1) as [[[]|e2] w2] eqn:H2.
  2:{ intros [= <- <-]. exists 2%nat. apply run_git_trace in H1, H2.
      split_and!; [lia..| |done]. rewrite H2, H1, <- app_assoc. done. }
  intros H3. exists 3%nat. apply run_git_trace in H1, H2, H3.
  split_and!; [lia..| |done]. rewrite H3, H2, H1, <- !app_assoc. done.
Qed.

Lemma mkdtemp_trace E w d w1 :
  mkdtemp E w = (Ok d, w1) → w_trace w1 = w_trace w ++ [EvMkdtemp d].
Proof.
  unfold mkdtemp. destruct (mkdtemp_from _ _ _) as [[d' fs']|]; [|done].
  by intros [= <- <-].
Qed.

Lemma extractall_unfold E zip_path dest w :
  extractall E zip_path dest w =
    let '(r, fs') := zip_extractall E (w_fs w) zip_path dest in
    (r, World fs' (w_trace w ++ [EvExtract zip_path dest])).
Proof.
  unfold extractall, mbind, M_bind, emit. cbn.
  by destruct (zip_extractall E _ _ _).
Qed.

Lemma execute_trace E self args repo_dir w r w' :
  _execute_linguist E self args repo_dir w = (r, w') →
  (use_docker self = true ∧ w' = w ∧
   ∃ e, os_stat E (w_fs w) repo_dir = Raise e ∧ r = Raise e) ∨
  ∃ uid gid cmd cwd,
    w_trace w' = w_trace w ++ [EvRun cmd cwd] ∧
    (if use_docker self
     then os_stat E (w_fs w) repo_dir = Ok (uid, gid) ∧
          cmd = docker_command self uid gid args repo_dir ∧ cwd = None
     else cmd = linguist_cmd self :: args ∧ cwd = Some (path_str repo_dir)).
Proof.
  destruct (use_docker self) eqn:Hd.
  - destruct (os_stat E (w_fs w) repo_dir) as [[uid gid]|e] eqn:Hstat.
    + rewrite (execute_docker E self args repo_dir w uid gid Hd Hstat). cbn zeta.
      intros Hrun. right. exists uid, gid, (docker_command self uid gid args repo_dir), None.
      split; [|done].
      destruct (subprocess_run E (w_fs w) _ _) as [[cp|e] fs']; by injection Hrun as _ <-.
    + unfold _execute_linguist. rewrite Hd.
      unfold mbind at 1. unfold M_bind.
      unfold mbind at 1. unfold M_bind. unfold query at 1. rewrite Hstat.
      intros [= <- <-]. left. split_and!; [done..|]. by exists e.
  - rewrite (execute_local E self args repo_dir w Hd). cbn zeta.
    intros Hrun. right. exists 0, 0, (linguist_cmd self :: args), (Some (path_str repo_dir)).
    split; [|done].
    destruct (subprocess_run E (w_fs w) _ _) as [[cp|e] fs']; by injection Hrun as _ <-.
Qed.

(** A successful collection started the classifier exactly once. *)
Lemma collect_ok_trace E self repo_dir w stats w' :
  _collect_language_stats E self repo_dir w = (Ok stats, w') →
  ∃ uid gid, w_trace w' = w_trace w ++ [classifier_run self uid gid repo_dir].
Proof.
  rewrite collect_unfold, breakdown_unfold.
  destruct (_execute_linguist E self _ repo_dir w) as [[output|e] w1] eqn:Hexec; [|done].
  intros Hrest.
  assert (w' = w1) as ->.
  { destruct (json_loads E output) as [[items|[]]|e]; try done.
    case_bool_decide; [done|]. by injection Hrest as _ <-. }
  apply execute_trace in Hexec as [(_ & _ & e & _ & [=])|(uid & gid & cmd & cwd & Htr & Hmode)].
  exists uid, gid. rewrite Htr. unfold classifier_run, BREAKDOWN_ARGS.
  destruct (use_docker self).
  - by destruct Hmode as (_ & -> & ->).
  - by destruct Hmode as [-> ->].
Qed.

(** The block under the [with] statement, step by step. *)
Lemma with_block_unfold E self zip_path tmpdir w1 :
  with_block E self zip_path tmpdir w1 =
    match extractall E zip_path tmpdir w1 with
    | (Ok _, w2) =>
        match _detect_project_root (w_fs w2) tmpdir with
        | Ok root =>
            match _init_git_repo E root w2 with
            | (Ok _, w3) => _collect_language_stats E self root w3
            | (Raise e, w3) => (Raise e, w3)
            end
        | Raise e => (Raise e, w2)
        end
    | (Raise e, w2) => (Raise e, w2)
    end.
Proof.
  unfold with_block. unfold mbind at 1. unfold M_bind.
  destruct (extractall E zip_path tmpdir w1) as [[[]|e] w2]; [|done].
  unfold mbind at 1. unfold M_bind. unfold query at 1.
  destruct (_detect_project_root (w_fs w2) tmpdir) as [root|e]; [|done].
  unfold mbind at 1. unfold M_bind.
  by destruct (_init_git_repo E root w2) as [[[]|e] w3].
Qed.

(** ** More on root detection *)

Lemma detect_one_level fs d root :
  _detect_project_root fs d = Ok root →
  root = d ∨ ∃ x, root = d ++ [x] ∧ x ≠ "__MACOSX" ∧ Fs.is_dir fs root = true.
Proof.
  intros Hdet.
  destruct (Fs.resolve fs d) as [[r data|es|]|e] eqn:Hd;
    try (unfold _detect_project_root, Fs.iterdir in Hdet; by rewrite Hd in Hdet).
  destruct (decide (size (subdir_names es) = 1%nat ∧ file_names es = ∅)) as [[Hs Hf]|Hno].
  - apply size_1_elem_of in Hs as [x Hx]. apply leibniz_equiv in Hx.
    rewrite (detect_single fs d es Hd x Hx Hf) in Hdet. injection Hdet as <-.
    right. exists x.
    assert (x ∈ subdir_names es) as Hin by (rewrite Hx; set_solver).
    unfold subdir_names in Hin. apply elem_of_dom in Hin as [c Hc].
    apply map_lookup_filter_Some in Hc as [Hc [Hn Hdir]]. cbn in *.
    split_and!; [done..|]. apply (is_dir_child fs d es Hd). eauto.
  - rewrite (detect_other fs d es Hd) in Hdet; [left; congruence|].
    apply not_and_l in Hno as [?|?]; [by left|by right].
Qed.

Lemma detect_returns fs d :
  Fs.is_dir fs d = true ↔ ∃ root, _detect_project_root fs d = Ok root.
Proof.
  unfold Fs.is_dir. split.
  - destruct (Fs.resolve fs d) as [[r data|es|]|e] eqn:Hd; try done.
    intros _. rewrite (detect_unfold fs d es Hd). by eexists.
  - intros [root Hdet]. revert Hdet. unfold _detect_project_root, Fs.iterdir.
    by destruct (Fs.resolve fs d) as [[r data|es|]|e].
Qed.

Lemma subdir_names_delete_macosx (es : gmap string Fs.node) :
  subdir_names (delete "__MACOSX" es) = subdir_names es.
Proof.
  unfold subdir_names. f_equal. apply map_eq. intros x.
  apply option_eq. intros c. rewrite !map_lookup_filter_Some, lookup_delete_Some.
  cbn. split.
  - by intros [[_ Hc] Hp].
  - intros [Hc [Hx Hp]]. split_and!; [congruence|done..].
Qed.

Lemma file_names_delete_macosx (es : gmap string Fs.node) :
  file_names (delete "__MACOSX" es) = file_names es.
Proof.
  unfold file_names. f_equal. apply map_eq. intros x.
  apply option_eq. intros c. rewrite !map_lookup_filter_Some, lookup_delete_Some.
  cbn. split.
  - by intros [[_ Hc] Hp].
  - intros [Hc [Hx Hp]]. split_and!; [congruence|done..].
Qed.

(** The detected root as a function of the two sets of names. *)
Lemma detect_by_names fs d es :
  Fs.resolve fs d = Ok (Fs.Dir es) →
  _detect_project_root fs d =
    Ok (match elements (subdir_names es) with
        | [x] => if decide (file_names es = ∅) then d ++ [x] else d
        | _ => d
        end).
Proof.
  intros Hd.
  destruct (decide (size (subdir_names es) = 1%nat)) as [Hs|Hs].
  - pose proof Hs as Hs'. apply size_1_elem_of in Hs' as [x Hx]. apply leibniz_equiv in Hx.
    rewrite Hx, elements_singleton. case_decide as Hf.
    + apply (detect_single fs d es Hd x Hx Hf).
    + apply (detect_other fs d es Hd). by right.
  - rewrite (detect_other fs d es Hd) by (by left).
    destruct (elements (subdir_names es)) as [|x [|y l]] eqn:Hel; [done| |done].
    exfalso. apply Hs. unfold size, set_size. cbn. by rewrite Hel.
Qed.

(** ** What the analysis leaves on the disk *)

Lemma rmtree_cons es x y d :
  Fs.rmtree (Fs.Dir es) (x :: y :: d) =
    match es !! x with
    | Some c => Fs.Dir (<[x := Fs.rmtree c (y :: d)]> es)
    | None => Fs.Dir es
    end.
Proof. done. Qed.

Lemma mkdir_rmtree fs d fs1 : Fs.mkdir fs d = Ok fs1 → Fs.rmtree fs1 d = fs.
Proof.
  revert fs fs1. induction d as [|x d IH]; intros fs fs1; [done|].
  destruct fs as [r data|es|]; [done| |done]. cbn [Fs.mkdir].
  destruct d as [|y d'].
  - destruct (es !! x) as [c|] eqn:Hx; [done|]. intros [= <-].
    cbn [Fs.rmtree]. by rewrite delete_insert_id.
  - destruct (es !! x) as [c|] eqn:Hx; [|done].
    destruct (Fs.mkdir c (y :: d')) as [c'|] eqn:Hc; [|done].
    cbn [mbind result_bind]. intros [= <-].
    rewrite rmtree_cons, lookup_insert_eq, (IH c c' Hc), insert_insert_eq.
    by rewrite insert_id.
Qed.

Lemma mkdtemp_from_rmtree names base fs d fs1 :
  mkdtemp_from names base fs = Ok (d, fs1) → Fs.rmtree fs1 d = fs.
Proof.
  induction names as [|n names IH]; [done|]. cbn [mkdtemp_from].
  destruct (Fs.mkdir fs _) as [fs'|[]] eqn:Hmk; try done.
  intros [= <- <-]. by apply mkdir_rmtree.
Qed.

Section keeps.

Context (E : Env) (d : Path).

(** The processes that the wrapper starts write nowhere but below [d]. *)
Hypothesis Hrun : ∀ fs cmd cwd,
  Fs.rmtree (subprocess_run E fs cmd cwd).2 d = Fs.rmtree fs d.

Lemma keeps_bind {A B} (m : M A) (k : A → M B) :
  keeps d m → (∀ a, keeps d (k a)) → keeps d (m ≫= k).
Proof.
  intros Hm Hk w r w'. unfold mbind, M_bind.
  destruct (m w) as [[a|e] w1] eqn:Hmw.
  - intros Hkw. rewrite (Hk a _ _ _ Hkw). by eapply Hm.
  - intros [= <- <-]. by eapply Hm.
Qed.

Lemma keeps_ret {A} (a : A) : keeps d (ret a).
Proof. by intros w r w' [= <- <-]. Qed.

Lemma keeps_raise {A} e : keeps d (raise e : M A).
Proof. by intros w r w' [= <- <-]. Qed.

Lemma keeps_query {A} (f : Fs.node → result A) : keeps d (query f).
Proof. by intros w r w' [= <- <-]. Qed.

Lemma keeps_run cmd cwd : keeps d (run E cmd cwd).
Proof using Hrun.
  intros w r w'. rewrite run_unfold. specialize (Hrun (w_fs w) cmd cwd).
  destruct (subprocess_run E (w_fs w) cmd cwd) as [r' fs']. by intros [= <- <-].
Qed.

Lemma keeps_run_git repo_path cmd : keeps d (run_git E repo_path cmd).
Proof using Hrun.
  apply keeps_bind; [apply keeps_run|]. intros cp.
  case_bool_decide; [apply keeps_raise|apply keeps_ret].
Qed.

Lemma keeps_init_git_repo repo_path : keeps d (_init_git_repo E repo_path).
Proof using Hrun.
  unfold _init_git_repo. repeat (apply keeps_bind; [apply keeps_run_git|intros _]).
  apply keeps_run_git.
Qed.

Lemma keeps_execute self args repo_dir : keeps d (_execute_linguist E self args repo_dir).
Proof using Hrun.
  unfold _execute_linguist. apply keeps_bind.
  - destruct (use_docker self); [|apply keeps_ret].
    apply keeps_bind; [apply keeps_query|]. intros [uid gid]. apply keeps_ret.
  - intros [cmd cwd]. apply keeps_bind; [apply keeps_run|]. intros cp.
    case_bool_decide; [apply keeps_raise|apply keeps_ret].
Qed.

Lemma keeps_collect self repo_dir : keeps d (_collect_language_stats E self repo_dir).
Proof using Hrun.
  unfold _collect_language_stats. apply keeps_bind.
  - unfold _run_linguist_breakdown. apply keeps_bind; [apply keeps_execute|].
    intros output. apply keeps_query.
  - intros [items|[]]; [|apply keeps_raise..].
    case_bool_decide; [apply keeps_raise|apply keeps_query].
Qed.

End keeps.

Lemma keeps_with_block E self zip_path tmpdir :
  (∀ fs cmd cwd, Fs.rmtree (subprocess_run E fs cmd cwd).2 tmpdir = Fs.rmtree fs tmpdir) →
  (∀ fs, Fs.rmtree (zip_extractall E fs zip_path tmpdir).2 tmpdir = Fs.rmtree fs tmpdir) →
  keeps tmpdir (with_block E self zip_path tmpdir).
Proof.
  intros Hrun Hzip. unfold with_block. apply keeps_bind.
  - intros w r w'. rewrite extractall_unfold. specialize (Hzip (w_fs w)).
    destruct (zip_extractall E (w_fs w) zip_path tmpdir) as [r' fs']. by intros [= <- <-].
  - intros _. apply keeps_bind; [apply keeps_query|]. intros root.
    apply keeps_bind; [by apply keeps_init_git_repo|]. intros _.
    by apply keeps_collect.
Qed.

Lemma rmtree_put fs d n : d ≠ [] → Fs.rmtree (Sample.put fs d n) d = Fs.rmtree fs d.
Proof.
  revert fs. induction d as [|x d IH]; intros fs Hd; [done|].
  destruct fs as [r data|es|]; [done| |done]. cbn [Sample.put].
  destruct (es !! x) as [c|] eqn:Hx; [|done].
  destruct d as [|y d'].
  - cbn [Fs.rmtree Sample.put]. by rewrite delete_insert_eq.
  - rewrite !rmtree_cons, lookup_insert_eq, Hx, IH by done.
    by rewrite insert_insert_eq.
Qed.

Lemma sample_processes_write_nothing rc decoded fs cmd cwd :
  (subprocess_run (Sample.env rc decoded) fs cmd cwd).2 = fs.
Proof. cbn. repeat case_match; done. Qed.

(** ** The sample runs, evaluated *)

Module SampleRuns.
Import Sample.

Lemma breakdown_report :
  _run_linguist_breakdown (env 0 (Ok (JObject report))) (default_wrapper false) []
    at_project = (Ok (JObject report), after_run).
Proof. vm_compute; reflexivity. Qed.

Lemma collect_report :
  _collect_language_stats (env 0 (Ok (JObject report))) (default_wrapper false) []
    at_project = (Ok expected_stats, after_run).
Proof. vm_compute; reflexivity. Qed.

Lemma breakdown_sparse :
  _run_linguist_breakdown (env 0 (Ok (JObject sparse_report))) (default_wrapper false) []
    at_project = (Ok (JObject sparse_report), after_run).
Proof. vm_compute; reflexivity. Qed.

Lemma collect_sparse :
  _collect_language_stats (env 0 (Ok (JObject sparse_report))) (default_wrapper false) []
    at_project = (Ok expected_sparse_stats, after_run).
Proof. vm_compute; reflexivity. Qed.

Lemma breakdown_negative :
  _run_linguist_breakdown (env 0 (Ok (JObject negative_report))) (default_wrapper false) []
    at_project = (Ok (JObject negative_report), after_run).
Proof. vm_compute; reflexivity. Qed.

Lemma collect_negative :
  _collect_language_stats (env 0 (Ok (JObject negative_report))) (default_wrapper false) []
    at_project = (Ok negative_stats, after_run).
Proof. vm_compute; reflexivity. Qed.

Lemma breakdown_giant :
  _run_linguist_breakdown (env 0 (Ok (JObject giant_report))) (default_wrapper false) []
    at_project = (Ok (JObject giant_report), after_run).
Proof. vm_compute; reflexivity. Qed.

Lemma collect_giant :
  _collect_language_stats (env 0 (Ok (JObject giant_report))) (default_wrapper false) []
    at_project = (Ok giant_stats, after_run).
Proof. vm_compute; reflexivity. Qed.

(** The scenario of the specification: [project/main.py] (10 lines, 250
    bytes of Python) and [project/lib.js] (30 lines, 750 bytes of JavaScript)
    give 25.00 and 75.00 per cent, and the temporary directory is gone. *)
Lemma analyze_sample :
  analyze_zip (env 0 (Ok (JObject report))) (default_wrapper false) ["in.zip"] start
    = (Ok expected_stats, World disk final_trace).
Proof. vm_compute; reflexivity. Qed.

(** The same archive with a classifier that exits with code 1. *)
Lemma analyze_failing :
  analyze_zip (env 1 (Ok (JObject report))) (default_wrapper true) ["in.zip"] start
    = (Raise (RuntimeError "github-linguist failed with code 1: boom"),
       World disk failing_trace).
Proof. vm_compute; reflexivity. Qed.

End SampleRuns.

(** The runs of the further samples. *)
Module VariantRuns.
Import Sample Variants.


Lemma breakdown_nested :
  _run_linguist_breakdown (env 0 (Ok (JObject nested_report)))
    (default_wrapper false) [] at_project
  = (Ok (JObject nested_report), after_run).
Proof. vm_compute; reflexivity. Qed.

Lemma collect_nested :
  _collect_language_stats (env 0 (Ok (JObject nested_report)))
    (default_wrapper false) [] at_project
  = (Raise NotADirectoryError, after_run).
Proof. vm_compute; reflexivity. Qed.

Lemma breakdown_zero :
  _run_linguist_breakdown (env 0 (Ok (JObject zero_report)))
    (default_wrapper false) [] at_project
  = (Ok (JObject zero_report), after_run).
Proof. vm_compute; reflexivity. Qed.

Lemma collect_zero :
  _collect_language_stats (env 0 (Ok (JObject zero_report)))
    (default_wrapper false) [] at_project
  = (Ok zero_stats, after_run).
Proof. vm_compute; reflexivity. Qed.

Lemma breakdown_huge :
  _run_linguist_breakdown (env 0 (Ok (JObject huge_report)))
    (default_wrapper false) [] at_project
  = (Ok (JObject huge_report), after_run).
Proof. vm_compute; reflexivity. Qed.

Lemma execute_failing_docker :
  _execute_linguist (env 1 (Ok (JObject report))) (default_wrapper true)
    BREAKDOWN_ARGS [] at_project
  = (Raise (RuntimeError "github-linguist failed with code 1: boom"),
     World project
       [EvRun (docker_command (default_wrapper true) 1000 1000 BREAKDOWN_ARGS []) None]).
Proof. vm_compute; reflexivity. Qed.

End VariantRuns.

(** * Properties of the wrapper *)

(** ** Root detection *)

(** C1. Root detection follows one rule.  For an extraction directory whose
    entries are [es]: when, the entry named [__MACOSX] apart, exactly one
    entry [x] is a directory and no entry is a regular file, the project root
    is that subdirectory; in every other case the root is the extraction
    directory itself.  In particular any top-level regular file, and any two
    top-level entries that are directories or regular files, keep the root at
    the extraction directory. *)
Theorem detect_project_root_rule (fs : Fs.node) (extract_dir : Path)
    (es : gmap string Fs.node) :
  Fs.resolve fs extract_dir = Ok (Fs.Dir es) →
  (∀ x, subdir_names es = {[x]} → file_names es = ∅ →
     _detect_project_root fs extract_dir = Ok (extract_dir ++ [x])) ∧
  (size (subdir_names es) ≠ 1%nat ∨ file_names es ≠ ∅ →
     _detect_project_root fs extract_dir = Ok extract_dir) ∧
  (∀ x r data, x ≠ "__MACOSX" → es !! x = Some (Fs.File r data) →
     _detect_project_root fs extract_dir = Ok extract_dir) ∧
  (∀ x y cx cy, x ≠ y → x ≠ "__MACOSX" → y ≠ "__MACOSX" →
     es !! x = Some cx → es !! y = Some cy → cx ≠ Fs.Special → cy ≠ Fs.Special →
     _detect_project_root fs extract_dir = Ok extract_dir).
Proof.
  intros Hd.
  assert (∀ x r data, x ≠ "__MACOSX" → es !! x = Some (Fs.File r data) →
            file_names es ≠ ∅) as Hfile.
  { intros x r data Hx Hes Hempty.
    assert (x ∈ file_names es) as Hin; [|by rewrite Hempty in Hin].
    apply elem_of_dom. eexists. by apply map_lookup_filter_Some. }
  assert (∀ x c, x ≠ "__MACOSX" → es !! x = Some c → is_Dir c → x ∈ subdir_names es)
    as Hdir.
  { intros x c Hx Hes Hc. apply elem_of_dom. eexists. by apply map_lookup_filter_Some. }
  split_and!.
  - intros x Hs Hf. exact (detect_single fs extract_dir es Hd x Hs Hf).
  - intros Hc. exact (detect_other fs extract_dir es Hd Hc).
  - intros x r data Hx Hes. eapply detect_other; [done|]. right.
    by apply (Hfile x r data).
  - intros x y cx cy Hxy Hx Hy Hex Hey Hcx Hcy. eapply detect_other; [done|].
    destruct cx as [rx dx| esx |]; [right; by apply (Hfile x rx dx)| |done].
    destruct cy as [ry dy| esy |]; [right; by apply (Hfile y ry dy)| |done].
    left. intros Hsize.
    assert ({[x; y]} ⊆ subdir_names es) as Hsub.
    { intros z [->%elem_of_singleton| ->%elem_of_singleton]%elem_of_union;
        by eapply Hdir. }
    apply subseteq_size in Hsub.
    rewrite size_union, !size_singleton in Hsub by set_solver. lia.
Qed.

(** The archive that unpacks to [project/] and [__MACOSX/] is analysed at
    [project/]. *)
Lemma detect_project_root_rule_witness :
  _detect_project_root Sample.extracted ["tmp"; "tmpabc"]
    = Ok ["tmp"; "tmpabc"; "project"].
Proof.
  refine (proj1 (detect_project_root_rule Sample.extracted ["tmp"; "tmpabc"]
                   Sample.unpacked _) "project" _ _);
    vm_compute; reflexivity.
Defined.

(** ** Line counting *)

(** C3. The chunk size is 1 MiB.  For a readable regular file the line count
    is the number of newline bytes of its content, whatever the length of the
    content is (a multiple of the chunk size or not), and reading with any
    other positive chunk size counts the same.  A path that is missing, is a
    directory, or is a file without read permission counts zero lines and
    raises nothing. *)
Theorem count_lines_counts_newlines (fs : Fs.node) (file_path : Path) :
  Z.of_nat CHUNK = 1048576 ∧
  (∀ data, Fs.resolve fs file_path = Ok (Fs.File true data) →
     _count_lines fs file_path = Ok (count_newlines data) ∧
     ∀ n, (0 < n)%nat → read_loop n data = count_newlines data) ∧
  (∀ msg, Fs.resolve fs file_path = Raise (FileNotFoundError msg) →
     _count_lines fs file_path = Ok 0) ∧
  (∀ es, Fs.resolve fs file_path = Ok (Fs.Dir es) →
     _count_lines fs file_path = Ok 0) ∧
  (∀ data, Fs.resolve fs file_path = Ok (Fs.File false data) →
     _count_lines fs file_path = Ok 0).
Proof.
  unfold _count_lines, Fs.open_rb. split; [apply CHUNK_value|].
  split_and!.
  - intros data ->. cbn [mbind result_bind].
    rewrite read_loop_count by apply CHUNK_pos. split; [done|].
    intros n Hn. by apply read_loop_count.
  - by intros msg ->.
  - by intros es ->.
  - by intros data ->.
Qed.

(** Four paths of the sample project: a ten-line file, a missing file, a
    directory and a file without read permission. *)
Lemma count_lines_counts_newlines_witness :
  _count_lines Sample.project ["main.py"] = Ok 10 ∧
  _count_lines Sample.project ["gone.py"] = Ok 0 ∧
  _count_lines Sample.project ["docs"] = Ok 0 ∧
  _count_lines Sample.project ["locked.txt"] = Ok 0.
Proof.
  split_and!.
  - refine (proj1 (proj1 (proj2 (count_lines_counts_newlines Sample.project ["main.py"]))
                     (Sample.text_lines 10) _)).
    vm_compute; reflexivity.
  - refine (proj1 (proj2 (proj2 (count_lines_counts_newlines Sample.project ["gone.py"])))
              "" _).
    vm_compute; reflexivity.
  - refine (proj1 (proj2 (proj2 (proj2
              (count_lines_counts_newlines Sample.project ["docs"])))) ∅ _).
    vm_compute; reflexivity.
  - refine (proj2 (proj2 (proj2 (proj2
              (count_lines_counts_newlines Sample.project ["locked.txt"]))))
              (Sample.text_lines 5) _).
    vm_compute; reflexivity.
Defined.

(** ** Aggregation *)

(** C4. For a non-empty classifier report, the languages of the mapping that
    [_collect_language_stats] returns are exactly the keys of the report; and
    the mapping is returned whenever the statistic of every entry
    evaluates. *)
Theorem language_set_preserved E self repo_dir w items w1 :
  _run_linguist_breakdown E self repo_dir w = (Ok (JObject items), w1) →
  items ≠ ∅ →
  (∀ stats w', _collect_language_stats E self repo_dir w = (Ok stats, w') →
     dom stats = dom items) ∧
  ((∀ language info, items !! language = Some info →
      ∃ st, language_stat (w_fs w1) repo_dir (total_bytes items) info = Ok st) →
   ∃ stats, _collect_language_stats E self repo_dir w = (Ok stats, w1)).
Proof.
  intros Hrun Hne. rewrite collect_unfold, Hrun.
  rewrite bool_decide_eq_false_2 by done. split.
  - intros stats w' [= Hloop <-].
    apply stats_loop_fmap in Hloop as [-> _]. by rewrite dom_fmap_L.
  - intros Hall. apply stats_loop_returns in Hall as [stats Hstats].
    exists stats. by rewrite Hstats.
Qed.

Lemma language_set_preserved_witness :
  dom Sample.expected_stats = dom Sample.report.
Proof.
  refine (proj1 (language_set_preserved _ _ _ _ _ _ SampleRuns.breakdown_report _)
            _ _ SampleRuns.collect_report).
  apply insert_non_empty.
Defined.

(** C2. For a non-empty classifier report, the total is the sum of the
    reported sizes, or 1 when that sum is 0: the sum of the list that holds
    the size of each language of the report, so that the size of every
    language is one of its summands.  The percentage of each
    language is [round(size * 100.0 / total, 2)] evaluated in binary64.  When
    [0 <= size <= total < 2^1000], that value is the double nearest to
    [k / 100] for an integer [k] within [1/2 + 10^5 / 2^54] of
    [10000 * size / total]; when moreover [100 * total < 2^46], within [1/2]:
    the exact quotient rounded to two decimals. *)
Theorem percent_formula E self repo_dir w items w1 stats w' language info :
  _run_linguist_breakdown E self repo_dir w = (Ok (JObject items), w1) →
  _collect_language_stats E self repo_dir w = (Ok stats, w') →
  items !! language = Some info →
  let size := default 0 (info_size info) in
  let total := total_bytes items in
  let sum := foldr Z.add 0 (reported_sizes items) in
  total = (if decide (sum = 0) then 1 else sum) ∧
  sum = size + foldr Z.add 0 (reported_sizes (delete language items)) ∧
  ∃ st, stats !! language = Some st ∧
    (x ← F64.float_of_int size; y ← F64.float_of_int total;
     q ← F64.fdiv (F64.fmul x F64.f100) y; F64.round2 q) = Ok (percent st) ∧
    (0 ≤ size ≤ total → total < 2 ^ 1000 →
       percent st = F64.of_hundredths false (F64.cents (percent st)) ∧
       2 * Z.abs (F64.cents (percent st) * total - 10000 * size) * 2 ^ 53
         ≤ total * (2 ^ 53 + 10 ^ 5) ∧
       (100 * total < 2 ^ 46 →
          2 * Z.abs (F64.cents (percent st) * total - 10000 * size) ≤ total)).
Proof.
  intros Hrun Hcollect Hin size total sum.
  rewrite collect_unfold, Hrun in Hcollect.
  case_bool_decide as Hne; [done|]. injection Hcollect as Hloop <-.
  apply stats_loop_fmap in Hloop as [-> Hall].
  specialize (Hall language info Hin). split.
  { unfold total, total_bytes, sum. rewrite <- sum_sizes_list.
    by case_bool_decide; case_decide. }
  split.
  { unfold sum. rewrite <- !sum_sizes_list. by apply sum_sizes_delete. }
  exists (stat_of (w_fs w1) repo_dir (total_bytes items) info).
  split; [by rewrite lookup_fmap, Hin|].
  revert Hall. generalize (stat_of (w_fs w1) repo_dir (total_bytes items) info).
  intros st. unfold language_stat.
  destruct (sum_lines _ _ _) as [n|]; [|done]. cbn [mbind result_bind].
  fold size total. fold (percent_of size total).
  destruct (percent_of size total) as [p|] eqn:Hp; [|done].
  cbn [mbind result_bind]. intros [= <-]. cbn [percent]. split; [done|].
  intros Hsize Hbound.
  assert (0 < total) as Hpos.
  { pose proof (total_bytes_nonzero items). unfold total in *. lia. }
  destruct (F64Facts.percent_of_accurate size total Hsize (conj Hpos Hbound))
    as (m & Hm & _ & _ & Hof & Hacc).
  rewrite Hp in Hm. injection Hm as ->. cbn [F64.cents F64.signed].
  split_and!; [done..|].
  intros Hsmall.
  destruct (F64Facts.percent_of_in_range size total Hsize Hpos ltac:(lia))
    as (m' & Hm' & _ & _ & _ & Hacc').
  rewrite Hp in Hm'. injection Hm' as <-. by apply F64Facts.nearest_of_slack.
Qed.

(** Python has 250 of 250 + 750 bytes: 25.00 per cent. *)
Lemma percent_formula_witness :
  total_bytes Sample.report = 1000 ∧
  foldr Z.add 0 (reported_sizes Sample.report) = 250 + 750 ∧
  ∃ st, Sample.expected_stats !! "Python" = Some st ∧
        percent_of 250 1000 = Ok (percent st) ∧
        F64.cents (percent st) = 2500.
Proof.
  destruct (percent_formula _ _ _ _ _ _ _ _ "Python"
              {| info_size := Some 250; info_files := Some ["main.py"] |}
              SampleRuns.breakdown_report SampleRuns.collect_report)
    as (Htotal & Hsum & st & Hst & Hformula & _).
  - vm_compute; reflexivity.
  - split; [|split].
    { rewrite Htotal. vm_compute; reflexivity. }
    { rewrite Hsum. vm_compute; reflexivity. }
    exists st. split; [exact Hst|].
    assert (Sample.expected_stats !! "Python"
            = Some {| percent := F64.Fin false (25 * F64.SCALE); lines := 10 |}) as Hval
      by (vm_compute; reflexivity).
    rewrite Hval in Hst. injection Hst as <-.
    split; vm_compute; reflexivity.
Defined.

(** C5 does not hold as stated, for two reasons.  A report may carry a
    negative size: with sizes [-1] and [2] the total is 1 and the percentages
    are [-100.0] and [200.0].  And a size may be a double while a hundred
    times the size is not: with the single size [10^307] the percentage is
    [inf]. *)
Lemma percentages_claim_counterexample :
  ¬ percentages_claim (Sample.env 0 (Ok (JObject Sample.negative_report)))
      (default_wrapper false) [] Sample.at_project ∧
  ¬ percentages_claim (Sample.env 0 (Ok (JObject Sample.giant_report)))
      (default_wrapper false) [] Sample.at_project.
Proof.
  split; intros Hclaim.
  - destruct (Hclaim _ _ _ _ SampleRuns.breakdown_negative SampleRuns.collect_negative)
      as [Hrange _].
    + exists "A", {| info_size := Some (-1); info_files := None |}.
      split; [vm_compute; reflexivity|]. cbn. lia.
    + destruct (Hrange "A" {| percent := F64.Fin true (100 * F64.SCALE); lines := 0 |})
        as [Hlo _].
      * vm_compute; reflexivity.
      * vm_compute in Hlo. discriminate.
  - destruct (Hclaim _ _ _ _ SampleRuns.breakdown_giant SampleRuns.collect_giant)
      as [Hrange _].
    + exists "A", {| info_size := Some (10 ^ 307); info_files := None |}.
      split; [vm_compute; reflexivity|]. by vm_compute.
    + destruct (Hrange "A" {| percent := F64.Inf false; lines := 0 |}) as [_ Hhi].
      * vm_compute; reflexivity.
      * cbn in Hhi. discriminate.
Qed.

(** C5, amended.  For a report whose sizes are all non-negative, at least one
    of them non-zero, and whose total is below [2^1000] bytes (so that every
    intermediate value is a finite double): every percentage lies in
    [0, 100] and is the double nearest to a whole number of hundredths, and
    these hundredths sum to [10000] up to [1/2 + 10^5 / 2^54] of a hundredth
    per language; that is half a hundredth per language when the report has
    fewer than [2^53 / 10^5] languages. *)
Theorem percentages_sum_and_range E self repo_dir w items w1 stats w' :
  _run_linguist_breakdown E self repo_dir w = (Ok (JObject items), w1) →
  _collect_language_stats E self repo_dir w = (Ok stats, w') →
  (∀ language info, items !! language = Some info → 0 ≤ default 0 (info_size info)) →
  (∃ language info, items !! language = Some info ∧ default 0 (info_size info) ≠ 0) →
  total_bytes items < 2 ^ 1000 →
  (∀ language st, stats !! language = Some st →
     in_range (percent st) ∧
     percent st = F64.of_hundredths false (F64.cents (percent st))) ∧
  2 * Z.abs (sum_cents stats - 10000) * 2 ^ 53
    ≤ Z.of_nat (size stats) * (2 ^ 53 + 10 ^ 5) ∧
  (10 ^ 5 * Z.of_nat (size stats) < 2 ^ 53 →
     2 * Z.abs (sum_cents stats - 10000) ≤ Z.of_nat (size stats)).
Proof.
  intros Hrun Hcollect Hnonneg (l0 & i0 & Hin0 & Hnz0) Hbound.
  rewrite collect_unfold, Hrun in Hcollect.
  case_bool_decide as Hne; [done|]. injection Hcollect as Hloop <-.
  apply stats_loop_fmap in Hloop as [-> Hall].
  set (T := total_bytes items) in *.
  assert (0 < sum_sizes items) as Hsum.
  { pose proof (size_le_sum items l0 i0 Hnonneg Hin0).
    pose proof (Hnonneg l0 i0 Hin0). lia. }
  assert (T = sum_sizes items) as HT.
  { unfold T, total_bytes. case_bool_decide; [lia|done]. }
  assert (∀ language info, items !! language = Some info →
            ∃ p, percent (stat_of (w_fs w1) repo_dir T info) = F64.Fin false p ∧
                 0 ≤ p ≤ 100 * F64.SCALE ∧
                 F64.of_hundredths false (F64.hundredths p) = F64.Fin false p ∧
                 2 * Z.abs (F64.hundredths p * T - 10000 * default 0 (info_size info))
                   * 2 ^ 53 ≤ T * (2 ^ 53 + 10 ^ 5))
    as Hentry.
  { intros language info Hin. specialize (Hall language info Hin).
    pose proof (Hnonneg language info Hin) as H0.
    pose proof (size_le_sum items language info Hnonneg Hin) as H1.
    destruct (F64Facts.percent_of_accurate (default 0 (info_size info)) T)
      as (p & Hp & Hrange & _ & Hof & Hacc); [lia..|].
    exists p. split_and!; [|lia..|done|done].
    revert Hall. generalize (stat_of (w_fs w1) repo_dir T info). intros st.
    unfold language_stat. destruct (sum_lines _ _ _); [|done].
    cbn [mbind result_bind]. rewrite Hp. cbn [mbind result_bind].
    by intros [= <-]. }
  split.
  - intros language st Hst. rewrite lookup_fmap in Hst.
    destruct (items !! language) as [info|] eqn:Hin; [|done].
    injection Hst as <-.
    destruct (Hentry language info Hin) as (p & -> & Hp & Hof & _).
    split; [|done]. unfold in_range, F64.fle, F64.f100. cbn [F64.signed].
    split; apply Z.leb_le; lia.
  - rewrite map_size_fmap. unfold sum_cents. rewrite map_fold_fmap.
    pose proof (fold_sum_bound
                  (λ info, F64.cents (percent (stat_of (w_fs w1) repo_dir T info)))
                  (λ info, default 0 (info_size info)) T (2 ^ 53) (2 ^ 53 + 10 ^ 5) items
                  ltac:(lia) ltac:(lia) ltac:(lia)) as Hsumb.
    cbn beta in Hsumb. fold (sum_sizes items) in Hsumb. rewrite <- HT in Hsumb.
    assert (∀ k v, items !! k = Some v →
              2 * Z.abs (F64.cents (percent (stat_of (w_fs w1) repo_dir T v)) * T
                         - 10000 * default 0 (info_size v)) * 2 ^ 53
              ≤ T * (2 ^ 53 + 10 ^ 5)) as Hper.
    { intros k v Hin. destruct (Hentry k v Hin) as (p & -> & _ & _ & Hacc). done. }
    specialize (Hsumb Hper).
    match type of Hsumb with 2 * Z.abs (?a * T - _) * _ ≤ _ => set (K := a) in * end.
    change (map_fold _ 0 items) with K.
    replace (K * T - 10000 * T) with ((K - 10000) * T) in Hsumb by lia.
    rewrite Z.abs_mul, (Z.abs_eq T) in Hsumb by lia.
    set (n := Z.of_nat (size items)) in *.
    assert (2 * Z.abs (K - 10000) * 2 ^ 53 * T ≤ (n * (2 ^ 53 + 10 ^ 5)) * T) as Hmul by lia.
    apply Z.mul_le_mono_pos_r in Hmul; [|lia]. split; [done|]. lia.
Qed.

Lemma percentages_sum_and_range_witness :
  (∀ language st, Sample.expected_stats !! language = Some st →
     in_range (percent st) ∧
     percent st = F64.of_hundredths false (F64.cents (percent st))) ∧
  2 * Z.abs (sum_cents Sample.expected_stats - 10000) * 2 ^ 53
    ≤ Z.of_nat (size Sample.expected_stats) * (2 ^ 53 + 10 ^ 5) ∧
  (10 ^ 5 * Z.of_nat (size Sample.expected_stats) < 2 ^ 53 →
     2 * Z.abs (sum_cents Sample.expected_stats - 10000)
       ≤ Z.of_nat (size Sample.expected_stats)).
Proof.
  refine (percentages_sum_and_range _ _ _ _ _ _ _ _
            SampleRuns.breakdown_report SampleRuns.collect_report _ _ _).
  - apply (bool_decide_unpack (map_Forall (λ _ info, 0 ≤ default 0 (info_size info))
                                 Sample.report)).
    vm_compute. exact I.
  - exists "Python", {| info_size := Some 250; info_files := Some ["main.py"] |}.
    split; [vm_compute; reflexivity|]. cbn. lia.
  - vm_compute; reflexivity.
Defined.

(** C10. An entry without the size key counts 0 bytes: it adds nothing to the
    total, and its percentage evaluates, to zero (with the sign of the total,
    which is positive unless sizes are negative), whenever the total converts
    to a float.  An entry without the file list has no file opened for it and
    counts 0 lines.  In every returned mapping the language of such an entry
    is present with these values. *)
Theorem missing_fields_default E self repo_dir w items w1 language info :
  _run_linguist_breakdown E self repo_dir w = (Ok (JObject items), w1) →
  items !! language = Some info →
  let total := total_bytes items in
  (info_size info = None →
     sum_sizes items = sum_sizes (delete language items) ∧
     ∀ y, F64.float_of_int total = Ok y →
       percent_of (default 0 (info_size info)) total = Ok (F64.Fin (total <? 0) 0)) ∧
  (info_files info = None →
     ∀ fs, sum_lines fs repo_dir (default [] (info_files info)) = Ok 0) ∧
  (info_size info = None → info_files info = None →
     ∀ y, F64.float_of_int total = Ok y →
       language_stat (w_fs w1) repo_dir total info =
         Ok {| percent := F64.Fin (total <? 0) 0; lines := 0 |}) ∧
  (∀ stats w', _collect_language_stats E self repo_dir w = (Ok stats, w') →
     ∃ st, stats !! language = Some st ∧
       (info_size info = None → percent st = F64.Fin (total <? 0) 0) ∧
       (info_files info = None → lines st = 0)).
Proof.
  intros Hrun Hin total.
  pose proof (total_bytes_nonzero items) as Hnz. fold total in Hnz.
  split_and!.
  - intros Hsize. split.
    + by rewrite (sum_sizes_delete items language info Hin), Hsize.
    + intros y Hy. rewrite Hsize. cbn [default].
      by apply (F64Facts.percent_of_zero_ok total y).
  - by intros ->.
  - intros Hsize Hfiles y Hy. unfold language_stat. rewrite Hsize, Hfiles.
    cbn [default sum_lines mbind result_bind].
    by rewrite (F64Facts.percent_of_zero_ok total y Hnz Hy).
  - intros stats w' Hcollect. rewrite collect_unfold, Hrun in Hcollect.
    case_bool_decide as Hne; [done|]. injection Hcollect as Hloop <-.
    apply stats_loop_fmap in Hloop as [-> Hall].
    specialize (Hall language info Hin). fold total in Hall |- *.
    exists (stat_of (w_fs w1) repo_dir total info).
    split; [by rewrite lookup_fmap, Hin|].
    revert Hall. generalize (stat_of (w_fs w1) repo_dir total info).
    intros st. unfold language_stat.
    destruct (sum_lines _ _ _) as [n|] eqn:Hn; [|done]. cbn [mbind result_bind].
    destruct (percent_of _ total) as [p|] eqn:Hp; [|done].
    cbn [mbind result_bind]. intros [= <-]. cbn [percent lines]. split.
    + intros Hsize. rewrite Hsize in Hp. by apply F64Facts.percent_of_zero in Hp.
    + intros Hfiles. rewrite Hfiles in Hn. by injection Hn as <-.
Qed.

(** The entry ["Text": {}] of the sparse report. *)
Lemma missing_fields_default_witness :
  ∃ st, Sample.expected_sparse_stats !! "Text" = Some st ∧
        percent st = F64.Fin false 0 ∧ lines st = 0.
Proof.
  destruct (proj2 (proj2 (proj2 (missing_fields_default _ _ _ _ _ _ "Text"
                                   {| info_size := None; info_files := None |}
                                   SampleRuns.breakdown_sparse
                                   ltac:(vm_compute; reflexivity))))
              _ _ SampleRuns.collect_sparse) as (st & Hst & Hpercent & Hlines).
  exists st. split; [exact Hst|]. split; [exact (Hpercent eq_refl)|exact (Hlines eq_refl)].
Defined.

(** ** Failures and cleanup *)

(** C6. When the input path is not an existing regular file, [analyze_zip]
    raises [FileNotFoundError] and leaves the world as it found it: no
    temporary directory was created and nothing was extracted. *)
Theorem missing_archive_fails_early E self zip_path w :
  Fs.is_file (w_fs w) zip_path = false →
  analyze_zip E self zip_path w =
    (Raise (FileNotFoundError ("File not found: " +:+ path_str zip_path)), w).
Proof. intros Hfile. by rewrite analyze_unfold, Hfile. Qed.

Lemma missing_archive_fails_early_witness :
  analyze_zip (Sample.env 0 (Ok (JObject Sample.report))) (default_wrapper false)
    ["nope.zip"] Sample.start
  = (Raise (FileNotFoundError "File not found: /nope.zip"), Sample.start).
Proof.
  apply (missing_archive_fails_early (Sample.env 0 (Ok (JObject Sample.report)))
           (default_wrapper false) ["nope.zip"] Sample.start).
  vm_compute; reflexivity.
Defined.

(** C7. In the local mode and in the container mode alike, when the
    classifier process exits with a non-zero code, [_execute_linguist] raises
    [RuntimeError] with the message
    [github-linguist failed with code <code>: <stderr>]; the error passes
    through [_collect_language_stats] unchanged, and an analysis that reached
    the classifier fails with it. *)
Theorem classifier_failure_reported E self repo_dir w cp fs' :
  let args := ["--breakdown"; "--json"; "."] in
  (use_docker self = false ∧
   subprocess_run E (w_fs w) (linguist_cmd self :: args) (Some (path_str repo_dir))
     = (Ok cp, fs')) ∨
  (use_docker self = true ∧ ∃ uid gid,
   os_stat E (w_fs w) repo_dir = Ok (uid, gid) ∧
   subprocess_run E (w_fs w) (docker_command self uid gid args repo_dir) None
     = (Ok cp, fs')) →
  returncode cp ≠ 0 →
  let message := "github-linguist failed with code " +:+ pretty (returncode cp)
                 +:+ ": " +:+ stderr cp in
  ∃ w',
    _execute_linguist E self args repo_dir w = (Raise (RuntimeError message), w') ∧
    _collect_language_stats E self repo_dir w = (Raise (RuntimeError message), w') ∧
    ∀ zip_path w0 tmpdir w1 w2,
      Fs.is_file (w_fs w0) zip_path = true →
      mkdtemp E w0 = (Ok tmpdir, w1) →
      extractall E zip_path tmpdir w1 = (Ok tt, w2) →
      _detect_project_root (w_fs w2) tmpdir = Ok repo_dir →
      _init_git_repo E repo_dir w2 = (Ok tt, w) →
      analyze_zip E self zip_path w0 =
        (Raise (RuntimeError message), (cleanup tmpdir w').2).
Proof.
  intros args Hmode Hrc message. subst args.
  assert (bool_decide (returncode cp ≠ 0) = true) as Hbd by by apply bool_decide_eq_true_2.
  assert (∃ w', _execute_linguist E self ["--breakdown"; "--json"; "."] repo_dir w
                = (Raise (RuntimeError message), w')) as [w' Hexec].
  { destruct Hmode as [[Hlocal Hrun]|(Hdocker & uid & gid & Hstat & Hrun)].
    - pose proof (execute_local E self ["--breakdown"; "--json"; "."] repo_dir w Hlocal)
        as Hexec.
      cbn zeta in Hexec. rewrite Hrun, Hbd in Hexec. by eexists.
    - pose proof (execute_docker E self ["--breakdown"; "--json"; "."] repo_dir w
                    uid gid Hdocker Hstat) as Hexec.
      cbn zeta in Hexec. rewrite Hrun, Hbd in Hexec. by eexists. }
  assert (_collect_language_stats E self repo_dir w = (Raise (RuntimeError message), w'))
    as Hcollect by by rewrite collect_unfold, breakdown_unfold, Hexec.
  exists w'. split_and!; [done..|].
  intros zip_path w0 tmpdir w1 w2 Hfile Hmk Hext Hroot Hgit.
  rewrite analyze_unfold, Hfile, Hmk.
  by rewrite (with_block_reaches_collect E self zip_path tmpdir w1 w2 repo_dir w
                Hext Hroot Hgit), Hcollect.
Qed.

(** The container mode with a classifier that exits with code 1 and writes
    [boom] to its standard error. *)
Lemma classifier_failure_reported_witness :
  ∃ w', _collect_language_stats (Sample.env 1 (Ok (JObject Sample.report)))
          (default_wrapper true) [] Sample.at_project
        = (Raise (RuntimeError "github-linguist failed with code 1: boom"), w').
Proof.
  destruct (classifier_failure_reported (Sample.env 1 (Ok (JObject Sample.report)))
              (default_wrapper true) [] Sample.at_project Sample.failed Sample.project)
    as (w' & _ & Hcollect & _).
  - right. split; [reflexivity|]. exists 1000, 1000. split; vm_compute; reflexivity.
  - vm_compute; discriminate.
  - exists w'. exact Hcollect.
Defined.

(** C8. Report validation: when the captured output does not parse, the
    parser's exception ends the analysis; when it parses to an empty mapping,
    the analysis ends with [RuntimeError]; and no returned mapping is
    empty. *)
Theorem report_validation E self repo_dir w :
  (∀ output w1 e,
     _execute_linguist E self ["--breakdown"; "--json"; "."] repo_dir w = (Ok output, w1) →
     json_loads E output = Raise e →
     _collect_language_stats E self repo_dir w = (Raise e, w1)) ∧
  (∀ output w1,
     _execute_linguist E self ["--breakdown"; "--json"; "."] repo_dir w = (Ok output, w1) →
     json_loads E output = Ok (JObject ∅) →
     _collect_language_stats E self repo_dir w =
       (Raise (RuntimeError "github-linguist returned empty result"), w1)) ∧
  (∀ stats w', _collect_language_stats E self repo_dir w = (Ok stats, w') → stats ≠ ∅).
Proof.
  split_and!.
  - intros output w1 e Hexec Hjson.
    by rewrite collect_unfold, breakdown_unfold, Hexec, Hjson.
  - intros output w1 Hexec Hjson.
    by rewrite collect_unfold, breakdown_unfold, Hexec, Hjson.
  - intros stats w'. rewrite collect_unfold.
    destruct (_run_linguist_breakdown E self repo_dir w) as [[[items|[]]|e] w1]; try done.
    case_bool_decide as Hne; [done|]. intros [= Hloop <-].
    apply stats_loop_fmap in Hloop as [-> _]. by rewrite fmap_empty_iff.
Qed.

(** Output that does not parse, and output that parses to [{}]. *)
Lemma report_validation_witness :
  _collect_language_stats (Sample.env 0 (Raise JSONDecodeError)) (default_wrapper false)
    [] Sample.at_project = (Raise JSONDecodeError, Sample.after_run) ∧
  _collect_language_stats (Sample.env 0 (Ok (JObject ∅))) (default_wrapper false)
    [] Sample.at_project
  = (Raise (RuntimeError "github-linguist returned empty result"), Sample.after_run).
Proof.
  split.
  - apply (proj1 (report_validation (Sample.env 0 (Raise JSONDecodeError))
                    (default_wrapper false) [] Sample.at_project) "{}");
      vm_compute; reflexivity.
  - apply (proj1 (proj2 (report_validation (Sample.env 0 (Ok (JObject ∅)))
                           (default_wrapper false) [] Sample.at_project)) "{}");
      vm_compute; reflexivity.
Defined.

(** C9. Once [analyze_zip] has created its temporary directory, whatever the
    outcome [r] of the analysis is (a result, or an exception of any later
    step), in the world it leaves behind neither the directory nor any path
    below it exists, and the removal is the last thing the analysis did. *)
Theorem temporary_directory_removed E self zip_path w tmpdir w1 r w' :
  Fs.is_file (w_fs w) zip_path = true →
  mkdtemp E w = (Ok tmpdir, w1) →
  analyze_zip E self zip_path w = (r, w') →
  (∀ q, exists_path (w_fs w') (tmpdir ++ q) = false) ∧
  last (w_trace w') = Some (EvRmtree tmpdir).
Proof.
  intros Hfile Hmk. rewrite analyze_unfold, Hfile, Hmk.
  destruct (with_block E self zip_path tmpdir w1) as [r2 w2].
  intros [= <- <-]. cbn [w_fs w_trace]. split.
  - intros q. apply rmtree_gone. revert Hmk. unfold mkdtemp.
    destruct (mkdtemp_from _ _ _) as [[d fs']|] eqn:Hfrom; [|done].
    intros [= <- _]. by eapply mkdtemp_from_nonempty.
  - by rewrite last_snoc.
Qed.

(** The analysis whose classifier fails: [/tmp/tmpabc] was created and is
    gone afterwards. *)
Lemma temporary_directory_removed_witness :
  (∀ q, exists_path Sample.disk (["tmp"; "tmpabc"] ++ q) = false) ∧
  last Sample.failing_trace = Some (EvRmtree ["tmp"; "tmpabc"]).
Proof.
  refine (temporary_directory_removed (Sample.env 1 (Ok (JObject Sample.report)))
            (default_wrapper true) ["in.zip"] Sample.start ["tmp"; "tmpabc"]
            (mkdtemp (Sample.env 1 (Ok (JObject Sample.report))) Sample.start).2
            _ (World Sample.disk Sample.failing_trace) _ _ SampleRuns.analyze_failing).
  - vm_compute; reflexivity.
  - vm_compute; reflexivity.
Defined.

(** * Further properties of the wrapper *)

(** ** Root detection *)

(** X1. Root detection returns a path exactly when the extraction directory is
    a directory.  The path it returns is the extraction directory itself or
    one of its children, which then is a directory not named [__MACOSX]:
    nesting deeper than one level is never unwrapped. *)
Theorem detected_root_one_level (fs : Fs.node) (extract_dir : Path) :
  (Fs.is_dir fs extract_dir = true ↔
     ∃ root, _detect_project_root fs extract_dir = Ok root) ∧
  (∀ root, _detect_project_root fs extract_dir = Ok root →
     root = extract_dir ∨
     ∃ x, root = extract_dir ++ [x] ∧ x ≠ "__MACOSX" ∧ Fs.is_dir fs root = true).
Proof. split; [apply detect_returns|apply detect_one_level]. Qed.

(** X2. The entry named [__MACOSX] has no influence on root detection:
    two extraction directories whose entries differ only in that entry (one
    has it, as a folder or as anything else, the other does not) get the same
    project root. *)
Theorem macosx_entry_ignored fs fs' extract_dir es :
  Fs.resolve fs extract_dir = Ok (Fs.Dir es) →
  Fs.resolve fs' extract_dir = Ok (Fs.Dir (delete "__MACOSX" es)) →
  _detect_project_root fs extract_dir = _detect_project_root fs' extract_dir.
Proof.
  intros Hd Hd'. rewrite (detect_by_names fs extract_dir es Hd).
  rewrite (detect_by_names fs' extract_dir _ Hd').
  by rewrite subdir_names_delete_macosx, file_names_delete_macosx.
Qed.

Lemma macosx_entry_ignored_witness :
  _detect_project_root Sample.extracted ["tmp"; "tmpabc"]
  = _detect_project_root Variants.extracted_plain ["tmp"; "tmpabc"].
Proof.
  apply (macosx_entry_ignored Sample.extracted Variants.extracted_plain ["tmp"; "tmpabc"]
           Sample.unpacked).
  - vm_compute; reflexivity.
  - vm_compute; reflexivity.
Defined.

(** ** Line counting *)

(** X3. The line count of a language is the sum, over the file names the
    classifier listed for it (a name listed twice counts twice), of the
    newline bytes of the readable regular file the name leads to, and of zero
    for a missing path, a directory and an unreadable file: when every listed
    name gives a plain path that leads to a regular file or to a directory,
    or is missing, that sum is returned.  When some listed name leads through
    a node that is not a directory, the error of [open] is not caught and no
    total is returned. *)
Theorem line_total (fs : Fs.node) (repo_dir : Path) (files : list string) :
  (Forall (λ f, plain_path (path_join repo_dir f) = true ∧
                countable fs (path_join repo_dir f) = true) files →
     sum_lines fs repo_dir files =
       Ok (foldr Z.add 0 ((λ f, lines_of fs (path_join repo_dir f)) <$> files))) ∧
  (Exists (λ f, Fs.resolve fs (path_join repo_dir f) = Raise NotADirectoryError) files →
     ∀ n, sum_lines fs repo_dir files ≠ Ok n).
Proof.
  split.
  - intros Hall. apply sum_lines_openable.
    eapply Forall_impl; [exact Hall|]. cbn. intros f [_ Hf].
    by apply countable_openable.
  - intros Hex n Hn.
    destruct (sum_lines_unopenable fs repo_dir files) as (e & He & _); [|congruence].
    eapply Exists_impl; [exact Hex|]. cbn. intros f Hf.
    unfold unopenable. by rewrite Hf.
Qed.

(** The file [main.py] listed twice, a missing file and a directory: twenty
    lines. *)
Lemma line_total_witness :
  sum_lines Sample.project [] ["main.py"; "gone.py"; "docs"; "main.py"] = Ok 20.
Proof.
  etransitivity.
  - apply (proj1 (line_total Sample.project [] ["main.py"; "gone.py"; "docs"; "main.py"])).
    repeat constructor.
  - vm_compute; reflexivity.
Defined.

(** X4. Line counts are never negative: the count of a file lies between
    zero and the number of its bytes, and in every mapping that aggregation
    returns the line count of every language is zero or more. *)
Theorem line_counts_bounded :
  (∀ fs file_path n, _count_lines fs file_path = Ok n →
     0 ≤ n ∧
     ∀ r data, Fs.resolve fs file_path = Ok (Fs.File r data) →
       n ≤ Z.of_nat (length data)) ∧
  (∀ E self repo_dir w stats w' language st,
     _collect_language_stats E self repo_dir w = (Ok stats, w') →
     stats !! language = Some st → 0 ≤ lines st).
Proof.
  split.
  - intros fs p n Hn. destruct (unopenable fs p) eqn:Hopen.
    { destruct (count_lines_unopenable fs p Hopen) as (e & He & _). congruence. }
    rewrite (count_lines_openable fs p Hopen) in Hn. injection Hn as <-.
    split; [apply lines_of_nonneg|].
    intros r data Hres. unfold lines_of. rewrite Hres.
    pose proof (count_newlines_bounds data). destruct r; lia.
  - intros E self repo_dir w stats w' language st Hcollect Hst.
    destruct (_run_linguist_breakdown E self repo_dir w) as [[[items|b]|e] w1] eqn:Hrun.
    + destruct (collect_lookup_inv _ _ _ _ _ _ _ _ _ _ Hrun Hcollect Hst) as [info Hin].
      destruct (collect_entry _ _ _ _ _ _ _ _ _ _ Hrun Hcollect Hin)
        as (st' & n & Hst' & Hn & _ & Hlines).
      rewrite Hst in Hst'. injection Hst' as <-. rewrite Hlines.
      by apply sum_lines_nonneg in Hn.
    + rewrite collect_unfold, Hrun in Hcollect. by destruct b.
    + by rewrite collect_unfold, Hrun in Hcollect.
Qed.

Lemma line_counts_bounded_witness :
  0 ≤ 10 ∧ 0 ≤ 30.
Proof.
  split.
  - exact (proj2 line_counts_bounded _ _ _ _ _ _ "Python"
             {| percent := F64.Fin false (25 * F64.SCALE); lines := 10 |}
             SampleRuns.collect_report ltac:(vm_compute; reflexivity)).
  - exact (proj2 line_counts_bounded _ _ _ _ _ _ "JavaScript"
             {| percent := F64.Fin false (75 * F64.SCALE); lines := 30 |}
             SampleRuns.collect_report ltac:(vm_compute; reflexivity)).
Defined.

(** ** Aggregation *)

(** X5. The guard [or 1] works: in the aggregation over a decoded report
    the percentage of no entry raises [ZeroDivisionError]; the only exception
    a percentage raises is [OverflowError] (an integer too large for a
    float).  Aggregation adds no error of its own and catches none: when it
    fails on a non-empty report, the exception is the one that
    [_count_lines] raised for a listed file of some entry, or it is the
    [OverflowError] of the percentage of some entry; on an empty report it is
    the [RuntimeError] of the validation. *)
Theorem aggregation_errors E self repo_dir w items w1 :
  _run_linguist_breakdown E self repo_dir w = (Ok (JObject items), w1) →
  (∀ language info e, items !! language = Some info →
     percent_of (default 0 (info_size info)) (total_bytes items) = Raise e →
     e = OverflowError) ∧
  (∀ e w', _collect_language_stats E self repo_dir w = (Raise e, w') →
     e ≠ ZeroDivisionError ∧
     ((items = ∅ ∧ e = RuntimeError EMPTY_MESSAGE) ∨
      ∃ language info, items !! language = Some info ∧
        ((∃ f, f ∈ default [] (info_files info) ∧
               _count_lines (w_fs w1) (path_join repo_dir f) = Raise e) ∨
         (percent_of (default 0 (info_size info)) (total_bytes items) = Raise e ∧
          e = OverflowError)))).
Proof.
  intros Hrun. split.
  - intros language info e _. apply percent_of_errors, total_bytes_nonzero.
  - intros e w'. rewrite collect_unfold, Hrun.
    case_bool_decide as Hne.
    { intros [= <- _]. split; [done|]. by left. }
    intros [= Hloop _].
    apply stats_loop_errors in Hloop as ([language info] & Hin & Hst).
    apply elem_of_map_to_list in Hin. cbn [snd] in Hst. split.
    { apply language_stat_errors in Hst; [|apply total_bytes_nonzero].
      by destruct Hst as [->|[->| ->]]. }
    right. exists language, info. split; [done|].
    revert Hst. unfold language_stat.
    destruct (sum_lines _ _ _) as [n|e1] eqn:Hn.
    + cbn [mbind result_bind].
      destruct (percent_of _ _) as [p|e2] eqn:Hp; [done|].
      intros [= <-]. right. split; [done|].
      by apply (percent_of_errors _ _ _ (total_bytes_nonzero items) Hp).
    + intros [= <-]. left. by apply sum_lines_raise in Hn.
Qed.

(** A report that lists [main.py/x]: the error of [open] comes out. *)
Lemma aggregation_errors_witness :
  NotADirectoryError ≠ ZeroDivisionError ∧
  ((Variants.nested_report = ∅ ∧ NotADirectoryError = RuntimeError EMPTY_MESSAGE) ∨
   ∃ language info, Variants.nested_report !! language = Some info ∧
     ((∃ f, f ∈ default [] (info_files info) ∧
            _count_lines (w_fs Sample.after_run) (path_join [] f)
            = Raise NotADirectoryError) ∨
      (percent_of (default 0 (info_size info)) (total_bytes Variants.nested_report)
       = Raise NotADirectoryError ∧ NotADirectoryError = OverflowError))).
Proof.
  exact (proj2 (aggregation_errors _ _ _ _ _ _ VariantRuns.breakdown_nested)
           _ _ VariantRuns.collect_nested).
Defined.

(** X6. Aggregation returns a result for every non-empty report whose sizes
    are not negative and sum to less than [2^1000], provided every listed
    file name gives a plain path that leads to a regular file or to a
    directory, or is missing; the classifier run apart it leaves the world as
    it is, and the line count of each language in the result is the sum of
    the newline bytes of its listed files. *)
Theorem aggregation_returns E self repo_dir w items w1 :
  _run_linguist_breakdown E self repo_dir w = (Ok (JObject items), w1) →
  items ≠ ∅ →
  (∀ language info, items !! language = Some info → 0 ≤ default 0 (info_size info)) →
  sum_sizes items < 2 ^ 1000 →
  (∀ language info, items !! language = Some info →
     Forall (λ f, plain_path (path_join repo_dir f) = true ∧
                  countable (w_fs w1) (path_join repo_dir f) = true)
       (default [] (info_files info))) →
  ∃ stats, _collect_language_stats E self repo_dir w = (Ok stats, w1) ∧
    ∀ language info, items !! language = Some info →
      ∃ st, stats !! language = Some st ∧
        lines st = foldr Z.add 0 ((λ f, lines_of (w_fs w1) (path_join repo_dir f))
                                    <$> default [] (info_files info)).
Proof.
  intros Hrun Hne Hnonneg Hsum Hfiles.
  destruct (total_bytes_cases items Hnonneg) as (Hpos & Htot & Hle).
  assert (total_bytes items < 2 ^ 1000) as Hlt by (destruct Htot as [->|[_ ->]]; lia).
  assert (∀ language info, items !! language = Some info →
            ∃ p, language_stat (w_fs w1) repo_dir (total_bytes items) info =
                   Ok {| percent := F64.Fin false p;
                         lines := foldr Z.add 0
                                    ((λ f, lines_of (w_fs w1) (path_join repo_dir f))
                                       <$> default [] (info_files info)) |}) as Hstat.
  { intros language info Hin. apply language_stat_returns; [|lia|].
    - split; [by eapply Hnonneg|by eapply Hle].
    - eapply Forall_impl; [exact (Hfiles language info Hin)|]. cbn.
      intros f [_ Hf]. by apply countable_openable. }
  rewrite collect_unfold, Hrun, bool_decide_eq_false_2 by done.
  destruct (stats_loop_returns (w_fs w1) repo_dir (total_bytes items) items) as [stats Hloop].
  { intros language info Hin. destruct (Hstat language info Hin) as [p Hp]. eauto. }
  exists stats. rewrite Hloop. split; [done|].
  apply stats_loop_fmap in Hloop as [-> _].
  intros language info Hin. destruct (Hstat language info Hin) as [p Hp].
  eexists. split; [by rewrite lookup_fmap, Hin|].
  unfold stat_of. by rewrite Hp.
Qed.

Lemma aggregation_returns_witness :
  ∃ stats, _collect_language_stats (Sample.env 0 (Ok (JObject Sample.report)))
             (default_wrapper false) [] Sample.at_project = (Ok stats, Sample.after_run) ∧
    ∀ language info, Sample.report !! language = Some info →
      ∃ st, stats !! language = Some st ∧
        lines st = foldr Z.add 0 ((λ f, lines_of (w_fs Sample.after_run) (path_join [] f))
                                    <$> default [] (info_files info)).
Proof.
  apply (aggregation_returns _ _ _ _ _ _ SampleRuns.breakdown_report).
  - apply insert_non_empty.
  - apply (bool_decide_unpack (map_Forall (λ _ info, 0 ≤ default 0 (info_size info))
                                 Sample.report)).
    vm_compute. exact I.
  - vm_compute; reflexivity.
  - apply (bool_decide_unpack
             (map_Forall (λ _ info,
                Forall (λ f, plain_path (path_join [] f) = true ∧
                             countable (w_fs Sample.after_run) (path_join [] f) = true)
                       (default [] (info_files info))) Sample.report)).
    vm_compute. exact I.
Defined.

(** X7. Integer sizes beyond the range of a float make aggregation fail.
    For an entry whose size, or for any entry when the total, is [2^1024] or
    more in absolute value, the percentage raises [OverflowError]; and a
    report with such a size or such a total never gives a result. *)
Theorem oversized_report_fails E self repo_dir w items w1 :
  _run_linguist_breakdown E self repo_dir w = (Ok (JObject items), w1) →
  (∀ language info, items !! language = Some info →
     2 ^ 1024 ≤ Z.abs (default 0 (info_size info)) ∨
     2 ^ 1024 ≤ Z.abs (total_bytes items) →
     percent_of (default 0 (info_size info)) (total_bytes items)
     = Raise OverflowError) ∧
  ((∃ language info, items !! language = Some info ∧
                     2 ^ 1024 ≤ Z.abs (default 0 (info_size info))) ∨
   2 ^ 1024 ≤ Z.abs (total_bytes items) →
   ∀ stats w', _collect_language_stats E self repo_dir w ≠ (Ok stats, w')).
Proof.
  intros Hrun. split.
  - intros language info _. apply F64Exact.percent_of_overflow.
  - intros Hbig stats w' Hcollect.
    assert (∃ language info, items !! language = Some info ∧
              percent_of (default 0 (info_size info)) (total_bytes items)
              = Raise OverflowError)
      as (language & info & Hin & He0).
    { destruct Hbig as [(language & info & Hin & Hsize)|Htotal].
      - exists language, info. split; [done|].
        apply F64Exact.percent_of_overflow. by left.
      - destruct (map_choose items) as (language & info & Hin).
        { intros ->. unfold total_bytes, sum_sizes in Htotal.
          rewrite map_fold_empty, bool_decide_eq_true_2 in Htotal by done.
          change (Z.abs 1) with 1 in Htotal. lia. }
        exists language, info. split; [done|].
        apply F64Exact.percent_of_overflow. by right. }
    destruct (collect_entry _ _ _ _ _ _ _ _ _ _ Hrun Hcollect Hin)
      as (st & n & _ & _ & Hp & _). congruence.
Qed.

(** A report with the size [2^1024]. *)
Lemma oversized_report_fails_witness :
  percent_of (2 ^ 1024) (total_bytes Variants.huge_report) = Raise OverflowError ∧
  ∀ stats w', _collect_language_stats (Sample.env 0 (Ok (JObject Variants.huge_report)))
                (default_wrapper false) [] Sample.at_project ≠ (Ok stats, w').
Proof.
  pose proof (oversized_report_fails _ _ _ _ _ _ VariantRuns.breakdown_huge)
    as [Hentry Hnone].
  split.
  - apply (Hentry "Data" {| info_size := Some (2 ^ 1024); info_files := None |}).
    + vm_compute; reflexivity.
    + left. by vm_compute.
  - apply Hnone. left.
    exists "Data", {| info_size := Some (2 ^ 1024); info_files := None |}.
    split; [vm_compute; reflexivity|]. by vm_compute.
Defined.

(** X8. A report whose sizes are all zero or absent is not an error: the
    total is taken as 1 and every language of the result has the percentage
    [0.0], so the percentages do not sum to 100. *)
Theorem zero_report_percentages E self repo_dir w items w1 stats w' :
  _run_linguist_breakdown E self repo_dir w = (Ok (JObject items), w1) →
  _collect_language_stats E self repo_dir w = (Ok stats, w') →
  (∀ language info, items !! language = Some info → default 0 (info_size info) = 0) →
  total_bytes items = 1 ∧
  (∀ language st, stats !! language = Some st → percent st = F64.Fin false 0) ∧
  sum_cents stats = 0.
Proof.
  intros Hrun Hcollect Hzero.
  assert (total_bytes items = 1) as Htotal.
  { unfold total_bytes. rewrite (sum_sizes_zero items Hzero). done. }
  assert (∀ language st, stats !! language = Some st → percent st = F64.Fin false 0)
    as Hall.
  { intros language st Hst.
    destruct (collect_lookup_inv _ _ _ _ _ _ _ _ _ _ Hrun Hcollect Hst) as [info Hin].
    destruct (collect_entry _ _ _ _ _ _ _ _ _ _ Hrun Hcollect Hin)
      as (st' & n & Hst' & _ & Hp & _).
    rewrite Hst in Hst'. injection Hst' as <-.
    rewrite (Hzero language info Hin), Htotal in Hp.
    by apply F64Facts.percent_of_zero in Hp. }
  split_and!; [done..|].
  unfold sum_cents. clear Hrun Hcollect.
  induction stats as [|k v m Hk Hfold IH] using map_first_key_ind.
  - by rewrite map_fold_empty.
  - rewrite map_fold_insert_first_key by done.
    rewrite IH.
    + rewrite (Hall k v (lookup_insert_eq _ _ _)). cbn [F64.cents F64.signed].
      by rewrite F64Facts.hundredths_zero.
    + intros k' v' Hin. apply (Hall k'). rewrite lookup_insert_ne; [done|congruence].
Qed.

Lemma zero_report_percentages_witness :
  total_bytes Variants.zero_report = 1 ∧
  (∀ language st, Variants.zero_stats !! language = Some st → percent st = F64.Fin false 0) ∧
  sum_cents Variants.zero_stats = 0.
Proof.
  apply (zero_report_percentages _ _ _ _ _ _ _ _ VariantRuns.breakdown_zero VariantRuns.collect_zero).
  apply (bool_decide_unpack (map_Forall (λ _ info, default 0 (info_size info) = 0)
                               Variants.zero_report)).
  vm_compute. exact I.
Defined.

(** X9. Percentages that have two decimals are exact.  In a report of
    non-negative sizes with a total below [2^1000], a language whose share
    [10000 * size / total] is a whole number [j] of hundredths gets the double
    nearest to [j / 100]: no rounding error of the float arithmetic shows.  In
    particular a language that holds the whole total gets exactly [100.0]. *)
Theorem exact_percentages E self repo_dir w items w1 stats w' language info :
  _run_linguist_breakdown E self repo_dir w = (Ok (JObject items), w1) →
  _collect_language_stats E self repo_dir w = (Ok stats, w') →
  items !! language = Some info →
  (∀ language info, items !! language = Some info → 0 ≤ default 0 (info_size info)) →
  total_bytes items < 2 ^ 1000 →
  ∃ st, stats !! language = Some st ∧
    (∀ j, 10000 * default 0 (info_size info) = j * total_bytes items →
       percent st = F64.of_hundredths false j) ∧
    (default 0 (info_size info) = total_bytes items → percent st = F64.f100).
Proof.
  intros Hrun Hcollect Hin Hnonneg Hbound.
  destruct (total_bytes_cases items Hnonneg) as (Hpos & _ & Hle).
  destruct (collect_entry _ _ _ _ _ _ _ _ _ _ Hrun Hcollect Hin)
    as (st & n & Hst & _ & Hp & _).
  exists st. split; [done|].
  assert (∀ j, 10000 * default 0 (info_size info) = j * total_bytes items →
            percent st = F64.of_hundredths false j) as Hexact.
  { intros j Hj.
    rewrite (F64Exact.percent_of_exact _ _ j) in Hp; [by injection Hp| |lia|done].
    split; [by eapply Hnonneg|by eapply Hle]. }
  split; [done|].
  intros Hwhole. rewrite <- F64Exact.of_hundredths_100. apply Hexact. lia.
Qed.

(** 250 bytes of 1000 are 25.00 per cent. *)
Lemma exact_percentages_witness :
  ∃ st, Sample.expected_stats !! "Python" = Some st ∧
    percent st = F64.of_hundredths false 2500.
Proof.
  destruct (exact_percentages _ _ _ _ _ _ _ _ "Python"
              {| info_size := Some 250; info_files := Some ["main.py"] |}
              SampleRuns.breakdown_report SampleRuns.collect_report)
    as (st & Hst & Hexact & _).
  - vm_compute; reflexivity.
  - apply (bool_decide_unpack (map_Forall (λ _ info, 0 ≤ default 0 (info_size info))
                                 Sample.report)).
    vm_compute. exact I.
  - vm_compute; reflexivity.
  - exists st. split; [exact Hst|]. apply Hexact. vm_compute; reflexivity.
Defined.

(** X10. Percentages keep the order of the sizes: with a positive total, a
    language with at least as many bytes as another one (both sizes
    non-negative) never gets the smaller percentage, whatever the float
    arithmetic rounds. *)
Theorem percentages_ordered_by_size E self repo_dir w items w1 stats w'
    l1 l2 i1 i2 st1 st2 :
  _run_linguist_breakdown E self repo_dir w = (Ok (JObject items), w1) →
  _collect_language_stats E self repo_dir w = (Ok stats, w') →
  items !! l1 = Some i1 → items !! l2 = Some i2 →
  stats !! l1 = Some st1 → stats !! l2 = Some st2 →
  0 < total_bytes items →
  0 ≤ default 0 (info_size i1) ≤ default 0 (info_size i2) →
  F64.fle (percent st1) (percent st2) = true.
Proof.
  intros Hrun Hcollect Hin1 Hin2 Hst1 Hst2 Hpos Hsizes.
  destruct (collect_entry _ _ _ _ _ _ _ _ _ _ Hrun Hcollect Hin1)
    as (st1' & n1 & Hst1' & _ & Hp1 & _).
  destruct (collect_entry _ _ _ _ _ _ _ _ _ _ Hrun Hcollect Hin2)
    as (st2' & n2 & Hst2' & _ & Hp2 & _).
  rewrite Hst1 in Hst1'. injection Hst1' as <-.
  rewrite Hst2 in Hst2'. injection Hst2' as <-.
  exact (F64Order.percent_of_mono _ _ _ _ _ Hsizes Hpos Hp1 Hp2).
Qed.

Lemma percentages_ordered_by_size_witness :
  F64.fle (F64.Fin false (25 * F64.SCALE)) (F64.Fin false (75 * F64.SCALE)) = true.
Proof.
  apply (percentages_ordered_by_size _ _ _ _ _ _ _ _ "Python" "JavaScript"
           {| info_size := Some 250; info_files := Some ["main.py"] |}
           {| info_size := Some 750; info_files := Some ["lib.js"] |}
           {| percent := F64.Fin false (25 * F64.SCALE); lines := 10 |}
           {| percent := F64.Fin false (75 * F64.SCALE); lines := 30 |}
           SampleRuns.breakdown_report SampleRuns.collect_report).
  - vm_compute; reflexivity.
  - vm_compute; reflexivity.
  - vm_compute; reflexivity.
  - vm_compute; reflexivity.
  - vm_compute; reflexivity.
  - cbn. lia.
Defined.

(** X11. For a report whose sizes are integers, a percentage is always a
    number: no language of a returned mapping has the percentage [nan],
    whatever the integers are; and with a positive total, a language whose
    size is not negative has a percentage that is not negative. *)
Theorem percentages_are_numbers E self repo_dir w items w1 stats w' language info st :
  _run_linguist_breakdown E self repo_dir w = (Ok (JObject items), w1) →
  _collect_language_stats E self repo_dir w = (Ok stats, w') →
  items !! language = Some info →
  stats !! language = Some st →
  percent st ≠ F64.NaN ∧
  (0 < total_bytes items → 0 ≤ default 0 (info_size info) →
     F64.fle (F64.Fin false 0) (percent st) = true).
Proof.
  intros Hrun Hcollect Hin Hst.
  destruct (collect_entry _ _ _ _ _ _ _ _ _ _ Hrun Hcollect Hin)
    as (st' & n & Hst' & _ & Hp & _).
  rewrite Hst in Hst'. injection Hst' as <-. split.
  - by apply percent_of_not_nan in Hp.
  - intros Hpos Hsize.
    assert (∃ y, F64.float_of_int (total_bytes items) = Ok y) as [y Hy].
    { destruct (F64.float_of_int (total_bytes items)) as [y|e] eqn:Hy; [by eexists|].
      exfalso. revert Hp. unfold percent_of. rewrite Hy.
      destruct (F64.float_of_int (default 0 (info_size info)));
        cbn [mbind result_bind]; done. }
    pose proof (F64Facts.percent_of_zero_ok (total_bytes items) y ltac:(lia) Hy) as H0.
    replace (total_bytes items <? 0) with false in H0 by lia.
    exact (F64Order.percent_of_mono 0 _ _ _ _ (conj (Z.le_refl 0) Hsize) Hpos H0 Hp).
Qed.

Lemma percentages_are_numbers_witness :
  F64.Fin false (25 * F64.SCALE) ≠ F64.NaN ∧
  F64.fle (F64.Fin false 0) (F64.Fin false (25 * F64.SCALE)) = true.
Proof.
  destruct (percentages_are_numbers _ _ _ _ _ _ _ _ "Python"
              {| info_size := Some 250; info_files := Some ["main.py"] |}
              {| percent := F64.Fin false (25 * F64.SCALE); lines := 10 |}
              SampleRuns.breakdown_report SampleRuns.collect_report)
    as [Hnan Hpos].
  - vm_compute; reflexivity.
  - vm_compute; reflexivity.
  - split; [exact Hnan|]. apply Hpos; [vm_compute; reflexivity|cbn; lia].
Defined.

(** ** The pipeline *)



(** X13. The effects of an analysis that returns a result, in order: the
    temporary directory is created, the archive is unpacked into it, [git
    init], [git add -A] and [git commit] run in the project root, the
    classifier runs once (as the local command in the project root, or as the
    container command), and the temporary directory is removed.  The project
    root is the temporary directory or one of its children.  Nothing else is
    started. *)
Theorem analysis_effects E self zip_path w stats w' :
  analyze_zip E self zip_path w = (Ok stats, w') →
  ∃ tmpdir root uid gid,
    (root = tmpdir ∨ ∃ x, root = tmpdir ++ [x] ∧ x ≠ "__MACOSX") ∧
    w_trace w' =
      w_trace w ++ [EvMkdtemp tmpdir; EvExtract zip_path tmpdir]
      ++ git_events (path_str root)
      ++ [classifier_run self uid gid root; EvRmtree tmpdir].
Proof.
  rewrite analyze_unfold. destruct (Fs.is_file (w_fs w) zip_path); [|done].
  destruct (mkdtemp E w) as [[tmpdir|e] w1] eqn:Hmk; [|done].
  rewrite with_block_unfold, extractall_unfold.
  destruct (zip_extractall E (w_fs w1) zip_path tmpdir) as [[[]|e] fs2]; [|done].
  cbn [w_fs].
  destruct (_detect_project_root fs2 tmpdir) as [root|e] eqn:Hroot; [|done].
  destruct (_init_git_repo E root _) as [[[]|e] w3] eqn:Hgit; [|done].
  destruct (_collect_language_stats E self root w3) as [r w4] eqn:Hcollect.
  intros [= -> <-]. cbn [w_trace].
  apply mkdtemp_trace in Hmk.
  apply init_git_repo_trace in Hgit as (k & _ & Hgit & Hk).
  rewrite (Hk eq_refl) in Hgit. cbn [w_trace] in Hgit.
  apply collect_ok_trace in Hcollect as (uid & gid & Hcollect).
  exists tmpdir, root, uid, gid. split.
  - apply detect_one_level in Hroot as [->|(x & -> & Hx & _)]; [by left|right; eauto].
  - rewrite Hcollect, Hgit, Hmk. cbn [take]. by rewrite <- !app_assoc.
Qed.

Lemma analysis_effects_witness :
  ∃ tmpdir root uid gid,
    (root = tmpdir ∨ ∃ x, root = tmpdir ++ [x] ∧ x ≠ "__MACOSX") ∧
    Sample.final_trace =
      [] ++ [EvMkdtemp tmpdir; EvExtract ["in.zip"] tmpdir]
      ++ git_events (path_str root)
      ++ [classifier_run (default_wrapper false) uid gid root; EvRmtree tmpdir].
Proof.
  exact (analysis_effects _ _ _ _ _ _ SampleRuns.analyze_sample).
Defined.

(** X14. An archive that does not unpack ends the analysis with the error of
    the extraction: no process is started, neither git nor the classifier,
    and the temporary directory is removed. *)
Theorem extraction_failure_stops E self zip_path w tmpdir w1 e fs' :
  Fs.is_file (w_fs w) zip_path = true →
  mkdtemp E w = (Ok tmpdir, w1) →
  zip_extractall E (w_fs w1) zip_path tmpdir = (Raise e, fs') →
  analyze_zip E self zip_path w =
    (Raise e,
     World (Fs.rmtree fs' tmpdir)
       (w_trace w ++ [EvMkdtemp tmpdir; EvExtract zip_path tmpdir; EvRmtree tmpdir])).
Proof.
  intros Hfile Hmk Hzip. rewrite analyze_unfold, Hfile, Hmk.
  rewrite with_block_unfold, extractall_unfold, Hzip. cbn [w_fs w_trace].
  apply mkdtemp_trace in Hmk. rewrite Hmk. by rewrite <- !app_assoc.
Qed.

Lemma extraction_failure_stops_witness :
  analyze_zip Variants.bad_zip (default_wrapper false) ["in.zip"] Sample.start =
    (Raise BadZipFile,
     World (Fs.rmtree (w_fs (mkdtemp Variants.bad_zip Sample.start).2) ["tmp"; "tmpabc"])
       ([] ++ [EvMkdtemp ["tmp"; "tmpabc"]; EvExtract ["in.zip"] ["tmp"; "tmpabc"];
               EvRmtree ["tmp"; "tmpabc"]])).
Proof.
  apply (extraction_failure_stops Variants.bad_zip (default_wrapper false) ["in.zip"]
           Sample.start ["tmp"; "tmpabc"] (mkdtemp Variants.bad_zip Sample.start).2
           BadZipFile).
  - vm_compute; reflexivity.
  - vm_compute; reflexivity.
  - vm_compute; reflexivity.
Defined.

(** X15. A failure of the git bootstrap is fatal: the analysis ends with the
    error of the bootstrap, the classifier is never started (the processes
    run are the first [k] git commands and nothing else), and the temporary
    directory is removed. *)
Theorem git_failure_is_fatal E self zip_path w tmpdir w1 w2 root e w3 :
  Fs.is_file (w_fs w) zip_path = true →
  mkdtemp E w = (Ok tmpdir, w1) →
  extractall E zip_path tmpdir w1 = (Ok tt, w2) →
  _detect_project_root (w_fs w2) tmpdir = Ok root →
  _init_git_repo E root w2 = (Raise e, w3) →
  ∃ k, (1 ≤ k ≤ 3)%nat ∧
    analyze_zip E self zip_path w =
      (Raise e,
       World (Fs.rmtree (w_fs w3) tmpdir)
         (w_trace w ++ [EvMkdtemp tmpdir; EvExtract zip_path tmpdir]
          ++ take k (git_events (path_str root)) ++ [EvRmtree tmpdir])).
Proof.
  intros Hfile Hmk Hext Hroot Hgit.
  rewrite analyze_unfold, Hfile, Hmk, with_block_unfold, Hext, Hroot, Hgit.
  apply init_git_repo_trace in Hgit as (k & Hk & Hgit & _). exists k. split; [done|].
  rewrite Hgit. rewrite extractall_unfold in Hext.
  destruct (zip_extractall E (w_fs w1) zip_path tmpdir) as [r fs2].
  injection Hext as _ <-. cbn [w_trace].
  apply mkdtemp_trace in Hmk. rewrite Hmk. by rewrite <- !app_assoc.
Qed.

Lemma git_failure_is_fatal_witness :
  let E := Variants.git_add_fails in
  let tmpdir := ["tmp"; "tmpabc"] in
  let w2 := (extractall E ["in.zip"] tmpdir (mkdtemp E Sample.start).2).2 in
  let w3 := (_init_git_repo E (tmpdir ++ ["project"]) w2).2 in
  ∃ k, (1 ≤ k ≤ 3)%nat ∧
    analyze_zip E (default_wrapper true) ["in.zip"] Sample.start =
      (Raise (CalledProcessError 128),
       World (Fs.rmtree (w_fs w3) tmpdir)
         ([] ++ [EvMkdtemp tmpdir; EvExtract ["in.zip"] tmpdir]
          ++ take k (git_events "/tmp/tmpabc/project") ++ [EvRmtree tmpdir])).
Proof.
  intros E tmpdir w2 w3.
  apply (git_failure_is_fatal E (default_wrapper true) ["in.zip"] Sample.start tmpdir
           (mkdtemp E Sample.start).2 w2 (tmpdir ++ ["project"])
           (CalledProcessError 128) w3).
  - vm_compute; reflexivity.
  - vm_compute; reflexivity.
  - vm_compute; reflexivity.
  - vm_compute; reflexivity.
  - vm_compute; reflexivity.
Defined.

(** X16. The analysis leaves the files as it found them.  When the processes
    it starts and the extraction write nowhere but below the temporary
    directory, then after [analyze_zip], whatever its outcome, the file
    system is the one it started with: the temporary directory is gone and
    nothing else was created, changed or removed. *)
Theorem analysis_restores_files E self zip_path w r w' :
  (∀ tmpdir w1, mkdtemp E w = (Ok tmpdir, w1) →
     (∀ fs cmd cwd,
        Fs.rmtree (subprocess_run E fs cmd cwd).2 tmpdir = Fs.rmtree fs tmpdir) ∧
     (∀ fs, Fs.rmtree (zip_extractall E fs zip_path tmpdir).2 tmpdir
            = Fs.rmtree fs tmpdir)) →
  analyze_zip E self zip_path w = (r, w') →
  w_fs w' = w_fs w.
Proof.
  intros Henv. rewrite analyze_unfold.
  destruct (Fs.is_file (w_fs w) zip_path); [|by intros [= _ <-]].
  destruct (mkdtemp E w) as [[tmpdir|e] w1] eqn:Hmk.
  - destruct (Henv tmpdir w1 eq_refl) as [Hrun Hzip].
    destruct (with_block E self zip_path tmpdir w1) as [r2 w2] eqn:Hblock.
    intros [= _ <-]. cbn [w_fs].
    rewrite (keeps_with_block E self zip_path tmpdir Hrun Hzip _ _ _ Hblock).
    revert Hmk. unfold mkdtemp.
    destruct (mkdtemp_from _ _ _) as [[d' fs1]|] eqn:Hfrom; [|done].
    intros [= <- <-]. cbn [w_fs]. by apply mkdtemp_from_rmtree in Hfrom.
  - intros [= _ <-]. revert Hmk. unfold mkdtemp.
    destruct (mkdtemp_from _ _ _) as [[d' fs1]|]; [done|]. by intros [= _ <-].
Qed.

Lemma analysis_restores_files_witness :
  Sample.disk = w_fs Sample.start.
Proof.
  apply (analysis_restores_files (Sample.env 1 (Ok (JObject Sample.report)))
           (default_wrapper true) ["in.zip"] Sample.start
           (Raise (RuntimeError "github-linguist failed with code 1: boom"))
           (World Sample.disk Sample.failing_trace)).
  - intros tmpdir w1 Hmk. split.
    + intros fs cmd cwd. by rewrite sample_processes_write_nothing.
    + intros fs. cbn. apply rmtree_put.
      revert Hmk. unfold mkdtemp.
      destruct (mkdtemp_from _ _ _) as [[d' fs1]|] eqn:Hfrom; [|done].
      intros [= <- _]. by eapply mkdtemp_from_nonempty.
  - exact SampleRuns.analyze_failing.
Defined.

(** X17. [_execute_linguist] starts at most one process.  In the local mode
    it starts exactly one, [linguist_cmd] followed by the arguments, with the
    project root as working directory, and [os.stat] is not consulted.  In
    the container mode it first asks [os.stat] for the owner of the project
    root: when that fails, its error is raised, no process is started and the
    world is as before; otherwise exactly the [docker run] command is
    started, as that owner and without a working directory.  A process that
    exits with code 0 gives its standard output as the result. *)
Theorem classifier_started_at_most_once E self args repo_dir w r w' :
  _execute_linguist E self args repo_dir w = (r, w') →
  (use_docker self = true ∧ w' = w ∧
   ∃ e, os_stat E (w_fs w) repo_dir = Raise e ∧ r = Raise e) ∨
  ∃ uid gid cmd cwd,
    w_trace w' = w_trace w ++ [EvRun cmd cwd] ∧
    (if use_docker self
     then os_stat E (w_fs w) repo_dir = Ok (uid, gid) ∧
          cmd = docker_command self uid gid args repo_dir ∧ cwd = None
     else cmd = linguist_cmd self :: args ∧ cwd = Some (path_str repo_dir)) ∧
    (∀ cp fs', subprocess_run E (w_fs w) cmd cwd = (Ok cp, fs') →
       returncode cp = 0 → r = Ok (stdout cp) ∧ w_fs w' = fs').
Proof.
  intros Hexec.
  destruct (execute_trace E self args repo_dir w r w' Hexec)
    as [Hstat|(uid & gid & cmd & cwd & Htrace & Hmode)]; [by left|].
  right. exists uid, gid, cmd, cwd. split_and!; [done..|].
  intros cp fs' Hrun Hrc. revert Hexec.
  destruct (use_docker self) eqn:Hd.
  - destruct Hmode as (Hstat & -> & ->).
    rewrite (execute_docker E self args repo_dir w uid gid Hd Hstat). cbn zeta.
    rewrite Hrun, bool_decide_eq_false_2 by (by intros ?). by intros [= <- <-].
  - destruct Hmode as [-> ->].
    rewrite (execute_local E self args repo_dir w Hd). cbn zeta.
    rewrite Hrun, bool_decide_eq_false_2 by (by intros ?). by intros [= <- <-].
Qed.

Lemma classifier_started_at_most_once_witness :
  let E := Sample.env 1 (Ok (JObject Sample.report)) in
  let self := default_wrapper true in
  let r : result string := Raise (RuntimeError "github-linguist failed with code 1: boom") in
  let w' := World Sample.project
              [EvRun (docker_command self 1000 1000 BREAKDOWN_ARGS []) None] in
  (use_docker self = true ∧ w' = Sample.at_project ∧
   ∃ e, os_stat E (w_fs Sample.at_project) [] = Raise e ∧ r = Raise e) ∨
  ∃ uid gid cmd cwd,
    w_trace w' = w_trace Sample.at_project ++ [EvRun cmd cwd] ∧
    (if use_docker self
     then os_stat E (w_fs Sample.at_project) [] = Ok (uid, gid) ∧
          cmd = docker_command self uid gid BREAKDOWN_ARGS [] ∧ cwd = None
     else cmd = linguist_cmd self :: BREAKDOWN_ARGS ∧ cwd = Some (path_str [])) ∧
    (∀ cp fs', subprocess_run E (w_fs Sample.at_project) cmd cwd = (Ok cp, fs') →
       returncode cp = 0 → r = Ok (stdout cp) ∧ w_fs w' = fs').
Proof.
  exact (classifier_started_at_most_once _ _ _ _ _ _ _ VariantRuns.execute_failing_docker).
Defined.
